(** * The NDJSON stream reader of the chat assistant

    A shallow embedding of [ollamaChatStreamWordByWord]
    (src/app/components/AIAssistantPage.tsx, lines 35-123) and of the
    part of the JavaScript platform it calls: strings as sequences of
    UTF-16 code units, [String.prototype.split] and [trim], the streaming
    UTF-8 [TextDecoder], [JSON.parse], and the coercions applied to a
    value of type [any].

    The function is asynchronous and effectful.  Its effects are modelled
    explicitly: the calls made to the callback [onToken] are a log, the
    [let] variables of the function are a record of locals, and an
    exception leaves the function with the log written so far.

    The later parts embed, in the same way, the plain reader
    [ollamaChatStream] and the helpers and payment route of the backend
    (src/unnamed/part_001), the routing and the ticket storage of
    [App.tsx], and the FAQ answers of the assistant. *)

From Stdlib Require Import String Ascii ZArith List Bool Lia.
From Stdlib Require Strings.Byte.
Open Scope string_scope.
Open Scope list_scope.
Import ListNotations.
Open Scope Z_scope.

(** ** JavaScript strings *)

(** A string is a finite sequence of UTF-16 code units. *)
Definition jsstring := list Z.

Definition bytes := list Byte.byte.

Definition byte_val (b : Byte.byte) : Z := Z.of_N (Byte.to_N b).

(** An ASCII literal as a JavaScript string. *)
Definition str (s : string) : jsstring := map byte_val (list_byte_of_string s).

(** The bytes of a JSON text given as an ASCII literal.  JSON texts are
    full of double quotes; [json] lets them be written with
    apostrophes: every byte 0x27 of the literal stands for 0x22. *)
Definition json (s : string) : bytes :=
  map (fun b => match b with Byte.x27 => Byte.x22 | _ => b end)
      (list_byte_of_string s).

(** Newline-delimited JSON: each record followed by a line feed. *)
Definition ndjson (records : list string) : bytes :=
  flat_map (fun r => json r ++ [Byte.x0a]) records.

(** The JavaScript string of an ASCII literal written like [json]. *)
Definition jstr (s : string) : jsstring := map byte_val (json s).

(** [WhiteSpace] and [LineTerminator] code units: the class [\s] of a
    regular expression and the characters [String.prototype.trim]
    strips. *)
Definition isWhiteSpace (c : Z) : bool :=
  ((9 <=? c) && (c <=? 13)) || (c =? 32) || (c =? 0xA0) || (c =? 0x1680)
  || ((0x2000 <=? c) && (c <=? 0x200A))
  || (c =? 0x2028) || (c =? 0x2029) || (c =? 0x202F) || (c =? 0x205F)
  || (c =? 0x3000) || (c =? 0xFEFF).

(** The line feed, [\n]. *)
Definition LF : Z := 10.

(** Prepend a code unit to the first piece of a list of pieces. *)
Definition cons_head (c : Z) (l : list jsstring) : list jsstring :=
  match l with
  | [] => [[c]]
  | h :: t => (c :: h) :: t
  end.

(** [s.split("\n")]: the substrings between the line feeds; one more
    piece than there are line feeds, so never the empty array. *)
Fixpoint split_LF (s : jsstring) : list jsstring :=
  match s with
  | [] => [[]]
  | c :: s' => if c =? LF then [] :: split_LF s' else cons_head c (split_LF s')
  end.

(** [s.split(/(\s+)/)]: because of the capturing group the separators
    are kept, so the result alternates maximal runs without white space
    and maximal runs of white space, starts and ends with a run without
    white space (either may be empty), and has odd length.  [ws] tells
    which kind of run the head of the result is. *)
Fixpoint split_runs (ws : bool) (s : jsstring) : list jsstring :=
  match s with
  | [] => if ws then [[]; []] else [[]]
  | c :: s' =>
      if Bool.eqb (isWhiteSpace c) ws then cons_head c (split_runs ws s')
      else [] :: cons_head c (split_runs (negb ws) s')
  end.

Definition split_ws (s : jsstring) : list jsstring := split_runs false s.

(** The lines a text holds in full, and what follows its last line
    feed: [lines] and [buffer] after [lines.pop()]. *)
Definition complete_lines (s : jsstring) : list jsstring := removelast (split_LF s).

Definition unterminated (s : jsstring) : jsstring := last (split_LF s) [].

Definition no_LF (s : jsstring) : bool := negb (existsb (Z.eqb LF) s).

(** [Array.prototype.pop]: what is left of the array, and the element
    popped ([None] for [undefined], on the empty array). *)
Fixpoint pop {A : Type} (l : list A) : list A * option A :=
  match l with
  | [] => ([], None)
  | a :: l' =>
      match l' with
      | [] => ([], Some a)
      | _ => let (r, x) := pop l' in (a :: r, x)
      end
  end.

(** [String.prototype.trim]. *)
Fixpoint trimStart (s : jsstring) : jsstring :=
  match s with
  | [] => []
  | c :: s' => if isWhiteSpace c then trimStart s' else s
  end.

Definition trimEnd (s : jsstring) : jsstring := rev (trimStart (rev s)).

Definition trim (s : jsstring) : jsstring := trimEnd (trimStart s).

(** Truthiness of a string: [if (s)] holds when [s] is not empty. *)
Definition nonempty (s : jsstring) : bool :=
  match s with [] => false | _ => true end.

(** [x || ""] and [x ?? ""] on what [pop] gives: the empty string for
    [undefined], and otherwise [x], which is the empty string when it
    is falsy. *)
Definition or_empty (x : option jsstring) : jsstring :=
  match x with
  | Some s => s
  | None => []
  end.

(** ** The streaming UTF-8 decoder

    [new TextDecoder("utf-8")] with [decode(value, { stream: true })]:
    the decoder of the Encoding standard.  Its state survives from one
    call to the next, the byte order mark is dropped when it is the first
    code point of the stream, and an ill-formed sequence decodes to
    U+FFFD.  The reader never makes the final call without [stream], so
    the end-of-stream step of the decoder is not part of the model. *)
Module TextDecoder.

Record t := mk {
  code_point : Z;
  bytes_seen : Z;
  bytes_needed : Z;
  lower_boundary : Z;
  upper_boundary : Z;
  BOM_seen : bool
}.

Definition fresh : t := mk 0 0 0 0x80 0xBF false.

(** The state between two characters. *)
Definition reset (d : t) : t := mk 0 0 0 0x80 0xBF (BOM_seen d).

Definition expect (d : t) (cp needed lo hi : Z) : t :=
  mk cp 0 needed lo hi (BOM_seen d).

(** A byte met when no sequence is open. *)
Definition lead (d : t) (b : Z) : t * list Z :=
  if b <=? 0x7F then (d, [b])
  else if (0xC2 <=? b) && (b <=? 0xDF) then
    (expect d (Z.land b 0x1F) 1 0x80 0xBF, [])
  else if (0xE0 <=? b) && (b <=? 0xEF) then
    (expect d (Z.land b 0xF) 2
       (if b =? 0xE0 then 0xA0 else 0x80) (if b =? 0xED then 0x9F else 0xBF), [])
  else if (0xF0 <=? b) && (b <=? 0xF4) then
    (expect d (Z.land b 0x7) 3
       (if b =? 0xF0 then 0x90 else 0x80) (if b =? 0xF4 then 0x8F else 0xBF), [])
  else (d, [0xFFFD]).

(** The handler of the decoder: the new state and the code points the
    byte completes.  A byte that cannot continue the open sequence ends
    it with U+FFFD and is then read again as the start of a new one. *)
Definition handler (d : t) (b : Z) : t * list Z :=
  if bytes_needed d =? 0 then lead d b
  else if (b <? lower_boundary d) || (upper_boundary d <? b) then
    let (d', out) := lead (reset d) b in (d', 0xFFFD :: out)
  else
    let cp := Z.lor (Z.shiftl (code_point d) 6) (Z.land b 0x3F) in
    if bytes_seen d + 1 =? bytes_needed d then (reset d, [cp])
    else (mk cp (bytes_seen d + 1) (bytes_needed d) 0x80 0xBF (BOM_seen d), []).

(** A code point as UTF-16 code units. *)
Definition code_units (cp : Z) : jsstring :=
  if cp <? 0x10000 then [cp]
  else [0xD800 + Z.shiftr (cp - 0x10000) 10; 0xDC00 + Z.land (cp - 0x10000) 0x3FF].

(** Serialization of the decoded code points: the first one of the
    stream is dropped when it is the byte order mark. *)
Fixpoint serialize (seen : bool) (cps : list Z) : bool * jsstring :=
  match cps with
  | [] => (seen, [])
  | cp :: cps' =>
      let (seen', out) := serialize true cps' in
      (seen', if negb seen && (cp =? 0xFEFF) then out else code_units cp ++ out)
  end.

Definition step (d : t) (b : Byte.byte) : t * jsstring :=
  let (d1, cps) := handler d (byte_val b) in
  let (seen, out) := serialize (BOM_seen d1) cps in
  (mk (code_point d1) (bytes_seen d1) (bytes_needed d1)
      (lower_boundary d1) (upper_boundary d1) seen, out).

(** [decoder.decode(value, { stream: true })]. *)
Fixpoint decode (d : t) (value : bytes) : t * jsstring :=
  match value with
  | [] => (d, [])
  | b :: value' =>
      let (d1, out1) := step d b in
      let (d2, out2) := decode d1 value' in
      (d2, out1 ++ out2)
  end.

End TextDecoder.

(** ** Numbers

    A JSON number literal denotes the binary64 value nearest to its
    decimal value (ties to even), and [Number::toString] prints the
    shortest decimal that reads back as the same value.  Both are
    computed here with exact integer arithmetic. *)
Module Number.

(** [Finite neg m e] is [m * 2^e], negated when [neg], with
    [0 < m < 2^53] and [-1074 <= e <= 971].  JSON has no literal for
    NaN. *)
Inductive t :=
| Zero (neg : bool)
| Finite (neg : bool) (m e : Z)
| Infinity (neg : bool).

Definition round_half_even (p q : Z) : Z :=
  let k := p / q in
  let r := p mod q in
  if 2 * r <? q then k
  else if q <? 2 * r then k + 1
  else if Z.even k then k else k + 1.

(** [2^d <= p / q] and [10^d <= p / q], for [p] and [q] positive. *)
Definition pow_le (base d p q : Z) : bool :=
  if 0 <=? d then q * base ^ d <=? p else q <=? p * base ^ (- d).

(** The binary64 value nearest to [p / q], for [0 <= p] and [0 < q]. *)
Definition of_ratio (neg : bool) (p q : Z) : t :=
  if p =? 0 then Zero neg
  else
    let d := Z.log2 p - Z.log2 q in
    let l := if pow_le 2 d p q then d else d - 1 in
    let e := Z.max (l - 52) (-1074) in
    let m := if 0 <=? e then round_half_even p (q * 2 ^ e)
             else round_half_even (p * 2 ^ (- e)) q in
    let m' := if m =? 2 ^ 53 then 2 ^ 52 else m in
    let e' := if m =? 2 ^ 53 then e + 1 else e in
    if m' =? 0 then Zero neg
    else if 971 <? e' then Infinity neg
    else Finite neg m' e'.

(** The value of [digits * 10^exp10]. *)
Definition of_decimal (neg : bool) (digits exp10 : Z) : t :=
  if 0 <=? exp10 then of_ratio neg (digits * 10 ^ exp10) 1
  else of_ratio neg digits (10 ^ (- exp10)).

Definition eqb (x y : t) : bool :=
  match x, y with
  | Zero a, Zero b => Bool.eqb a b
  | Finite a m e, Finite b m' e' => Bool.eqb a b && (m =? m') && (e =? e')
  | Infinity a, Infinity b => Bool.eqb a b
  | _, _ => false
  end.

(** [ToBoolean] of a number: false on [+0] and [-0]. *)
Definition ToBoolean (x : t) : bool :=
  match x with Zero _ => false | _ => true end.

Fixpoint decimal_digits (fuel : nat) (n : Z) (acc : jsstring) : jsstring :=
  match fuel with
  | O => acc
  | S fuel' =>
      let acc' := (48 + n mod 10) :: acc in
      if n <? 10 then acc' else decimal_digits fuel' (n / 10) acc'
  end.

(** The decimal digits of a natural number. *)
Definition decimal (n : Z) : jsstring :=
  decimal_digits (S (Z.to_nat (Z.log2 n))) n [].

(** Move an estimate [k] of [floor (log10 (p / q))] to the exact value. *)
Fixpoint settle_log10 (fuel : nat) (k p q : Z) : Z :=
  match fuel with
  | O => k
  | S fuel' =>
      if negb (pow_le 10 k p q) then settle_log10 fuel' (k - 1) p q
      else if pow_le 10 (k + 1) p q then settle_log10 fuel' (k + 1) p q
      else k
  end.

Definition floor_log10 (p q : Z) : Z :=
  settle_log10 8 (((Z.log2 p - Z.log2 q) * 1233) / 4096) p q.

(** A candidate [(n, s)] of [k] digits stands for [s * 10^(n - k)]. *)
Definition candidate_ratio (k : Z) (c : Z * Z) : Z * Z :=
  let (n, s) := c in
  if 0 <=? n - k then (s * 10 ^ (n - k), 1) else (s, 10 ^ (k - n)).

(** The candidates of [k] digits with exponent [n] that read back as
    the value [xp / xq = m * 2^e]: the two neighbours of the value on
    the grid of step [10^(n - k)]. *)
Definition candidates (m e xp xq k n : Z) : list (Z * Z) :=
  let lo := if 0 <=? k - n then (xp * 10 ^ (k - n)) / xq
            else xp / (xq * 10 ^ (n - k)) in
  filter (fun c : Z * Z =>
            let (vp, vq) := candidate_ratio k c in
            (10 ^ (k - 1) <=? snd c) && (snd c <? 10 ^ k)
            && eqb (of_ratio false vp vq) (Finite false m e))
         [(n, lo); (n, lo + 1)].

(** [c] is at least as good as [c']: nearer to the value, or as near
    with an even [s]. *)
Definition nearer (xp xq k : Z) (c c' : Z * Z) : bool :=
  let (vp, vq) := candidate_ratio k c in
  let (wp, wq) := candidate_ratio k c' in
  let dv := Z.abs (vp * xq - xp * vq) * wq in
  let dw := Z.abs (wp * xq - xp * wq) * vq in
  (dv <? dw) || ((dv =? dw) && Z.even (snd c)).

Fixpoint best (xp xq k : Z) (c : Z * Z) (cs : list (Z * Z)) : Z * Z :=
  match cs with
  | [] => c
  | c' :: cs' => best xp xq k (if nearer xp xq k c c' then c else c') cs'
  end.

(** The least number of digits [k], from [k] upwards, with a candidate;
    seventeen digits always suffice. *)
Fixpoint shortest (fuel : nat) (m e xp xq n0 k : Z) : Z * (Z * Z) :=
  match fuel with
  | O => (k, (n0, 0))
  | S fuel' =>
      match candidates m e xp xq k n0 ++ candidates m e xp xq k (n0 + 1) with
      | [] => shortest fuel' m e xp xq n0 (k + 1)
      | c :: cs => (k, best xp xq k c cs)
      end
  end.

Definition zeros (n : Z) : jsstring := repeat 48 (Z.to_nat n).

(** The layout of the digits [s] ([k] of them) with exponent [n]. *)
Definition layout (n k s : Z) : jsstring :=
  let ds := decimal s in
  if (k <=? n) && (n <=? 21) then ds ++ zeros (n - k)
  else if (0 <? n) && (n <=? 21) then
    firstn (Z.to_nat n) ds ++ [46] ++ skipn (Z.to_nat n) ds
  else if (-6 <? n) && (n <=? 0) then [48; 46] ++ zeros (- n) ++ ds
  else
    let ex := [101; if 0 <=? n - 1 then 43 else 45] ++ decimal (Z.abs (n - 1)) in
    if k =? 1 then ds ++ ex
    else firstn 1 ds ++ [46] ++ skipn 1 ds ++ ex.

(** [Number::toString], radix ten. *)
Definition toString (x : t) : jsstring :=
  match x with
  | Zero _ => [48]
  | Infinity neg => (if neg then [45] else []) ++ str "Infinity"
  | Finite neg m e =>
      let xp := if 0 <=? e then m * 2 ^ e else m in
      let xq := if 0 <=? e then 1 else 2 ^ (- e) in
      let n0 := floor_log10 xp xq + 1 in
      let '(k, (n, s)) := shortest 17 m e xp xq n0 1 in
      (if neg then [45] else []) ++ layout n k s
  end.

End Number.

(** ** Values and coercions *)

(** What [JSON.parse] can return.  An object is its own properties in
    the order of their creation, each key once. *)
#[warnings="-register-all"]
Inductive JSValue :=
| JNull
| JBool (b : bool)
| JNumber (n : Number.t)
| JString (s : jsstring)
| JArray (elements : list JSValue)
| JObject (properties : list (jsstring * JSValue)).

(** Exceptions the function can leave with. *)
Inductive exn :=
| AbortError
| TypeError
| Error (message : jsstring)
| TransportError (cause : jsstring).

Definition jsstring_eqb (a b : jsstring) : bool :=
  if list_eq_dec Z.eq_dec a b then true else false.

Fixpoint own_property (key : jsstring) (props : list (jsstring * JSValue))
  : option JSValue :=
  match props with
  | [] => None
  | (k, v) :: props' =>
      if jsstring_eqb k key then Some v else own_property key props'
  end.

(** [CreateDataProperty]: a key met again takes the new value. *)
Fixpoint set_property (key : jsstring) (v : JSValue)
  (props : list (jsstring * JSValue)) : list (jsstring * JSValue) :=
  match props with
  | [] => [(key, v)]
  | (k, v') :: props' =>
      if jsstring_eqb k key then (k, v) :: props'
      else (k, v') :: set_property key v props'
  end.

(** [o?.key], with [None] for [undefined], for a key that no prototype
    defines and that is neither an index nor [length]: the reader reads
    [message], [content] and [done].  Such a key is found on an object
    that owns it and nowhere else; on [undefined] and [null] the
    optional chain stops. *)
Definition optional_get (o : option JSValue) (key : jsstring) : option JSValue :=
  match o with
  | Some (JObject props) => own_property key props
  | _ => None
  end.

(** [x ?? d]. *)
Definition nullish_or (x : option JSValue) (d : JSValue) : JSValue :=
  match x with
  | None | Some JNull => d
  | Some v => v
  end.

Definition ToBoolean (x : option JSValue) : bool :=
  match x with
  | None | Some JNull => false
  | Some (JBool b) => b
  | Some (JNumber n) => Number.ToBoolean n
  | Some (JString s) => nonempty s
  | Some (JArray _) | Some (JObject _) => true
  end.

(** [Array.prototype.join] on strings already converted. *)
Fixpoint join (sep : jsstring) (l : list jsstring) : jsstring :=
  match l with
  | [] => []
  | [s] => s
  | s :: l' => s ++ sep ++ join sep l'
  end.

Fixpoint all_ok {A : Type} (l : list (A + exn)) : list A + exn :=
  match l with
  | [] => inl []
  | inl a :: l' =>
      match all_ok l' with inl r => inl (a :: r) | inr e => inr e end
  | inr e :: _ => inr e
  end.

(** The string a value contributes to [s + v]: [ToPrimitive] and then
    [ToString].  An array is joined with commas, [null] elements
    counting as empty.  An object prints as [[object Object]], unless
    it owns a property [toString]: that property, parsed from JSON, is
    not callable, [valueOf] returns the object itself, and the
    conversion throws a [TypeError]. *)
Fixpoint ToString (v : JSValue) : jsstring + exn :=
  match v with
  | JNull => inl (str "null")
  | JBool b => inl (if b then str "true" else str "false")
  | JNumber n => inl (Number.toString n)
  | JString s => inl s
  | JArray l =>
      match all_ok (map (fun x => match x with
                                  | JNull => inl []
                                  | _ => ToString x
                                  end) l) with
      | inl pieces => inl (join [44] pieces)
      | inr e => inr e
      end
  | JObject props =>
      match own_property (str "toString") props with
      | Some _ => inr TypeError
      | None => inl (str "[object Object]")
      end
  end.

(** ** [JSON.parse] *)
Module JSON.

Definition QUOTE : Z := 34.
Definition BACKSLASH : Z := 92.

Definition is_ws (c : Z) : bool :=
  (c =? 32) || (c =? 9) || (c =? 10) || (c =? 13).

Definition is_digit (c : Z) : bool := (48 <=? c) && (c <=? 57).

Fixpoint skip_ws (s : jsstring) : jsstring :=
  match s with
  | [] => []
  | c :: s' => if is_ws c then skip_ws s' else s
  end.

Definition hex (c : Z) : option Z :=
  if is_digit c then Some (c - 48)
  else if (97 <=? c) && (c <=? 102) then Some (c - 87)
  else if (65 <=? c) && (c <=? 70) then Some (c - 55)
  else None.

Definition hex4 (a b c d : Z) : option Z :=
  match hex a, hex b, hex c, hex d with
  | Some x, Some y, Some z, Some w => Some (((x * 16 + y) * 16 + z) * 16 + w)
  | _, _, _, _ => None
  end.

(** The character an escape [\c] stands for. *)
Definition escape (c : Z) : option Z :=
  if c =? QUOTE then Some QUOTE
  else if c =? BACKSLASH then Some BACKSLASH
  else if c =? 47 then Some 47
  else if c =? 98 then Some 8
  else if c =? 102 then Some 12
  else if c =? 110 then Some 10
  else if c =? 114 then Some 13
  else if c =? 116 then Some 9
  else None.

(** The rest of a string literal, after its opening quote; [acc] holds
    the characters read so far, last first. *)
Fixpoint string_body (s acc : jsstring) : option (jsstring * jsstring) :=
  match s with
  | [] => None
  | c :: s' =>
      if c =? QUOTE then Some (rev acc, s')
      else if c =? BACKSLASH then
        match s' with
        | [] => None
        | e :: s'' =>
            if e =? 117 then
              match s'' with
              | h1 :: h2 :: h3 :: h4 :: s3 =>
                  match hex4 h1 h2 h3 h4 with
                  | Some u => string_body s3 (u :: acc)
                  | None => None
                  end
              | _ => None
              end
            else
              match escape e with
              | Some u => string_body s'' (u :: acc)
              | None => None
              end
        end
      else if c <? 32 then None
      else string_body s' (c :: acc)
  end.

(** The leading digits of [s], as their count and value, and the rest. *)
Fixpoint digits (s : jsstring) (count value : Z) : Z * Z * jsstring :=
  match s with
  | c :: s' =>
      if is_digit c then digits s' (count + 1) (value * 10 + (c - 48))
      else (count, value, s)
  | [] => (count, value, [])
  end.

(** A number literal: an optional minus sign, an integer part without
    superfluous leading zero, an optional fraction and an optional
    exponent. *)
Definition number (s : jsstring) : option (Number.t * jsstring) :=
  let neg := match s with c :: _ => c =? 45 | [] => false end in
  let s1 := if neg then tl s else s in
  let '(ni, vi, s2) := digits s1 0 0 in
  let leading_zero := match s1 with c :: _ => c =? 48 | [] => false end in
  if (ni =? 0) || (leading_zero && (1 <? ni)) then None
  else
    let frac :=
      match s2 with
      | c :: s2' =>
          if c =? 46 then
            let '(nf, vf, s3) := digits s2' 0 vi in
            if nf =? 0 then None else Some (nf, vf, s3)
          else Some (0, vi, s2)
      | [] => Some (0, vi, s2)
      end in
    match frac with
    | None => None
    | Some (nf, v, s3) =>
        let expo :=
          match s3 with
          | c :: s3' =>
              if (c =? 101) || (c =? 69) then
                let sign := match s3' with c' :: _ => c' | [] => 0 end in
                let s4 := if (sign =? 43) || (sign =? 45) then tl s3' else s3' in
                let '(ne, ve, s5) := digits s4 0 0 in
                if ne =? 0 then None
                else Some (if sign =? 45 then - ve else ve, s5)
              else Some (0, s3)
          | [] => Some (0, s3)
          end in
        match expo with
        | None => None
        | Some (e, rest) => Some (Number.of_decimal neg v (e - nf), rest)
        end
    end.

(** [s] starts with the word [w]. *)
Fixpoint word (w s : jsstring) : option jsstring :=
  match w, s with
  | [], _ => Some s
  | a :: w', c :: s' => if a =? c then word w' s' else None
  | _ :: _, [] => None
  end.

(** The outcome of a parser that runs on fuel. *)
Inductive parsed :=
| Parsed (v : JSValue) (rest : jsstring)
| Invalid
| Exhausted.

Definition of_option (A : Type) (f : A -> JSValue) (o : option (A * jsstring))
  : parsed :=
  match o with
  | Some (a, rest) => Parsed (f a) rest
  | None => Invalid
  end.

(** A value with optional white space before it, the elements of an
    array after its bracket or a comma, and the members of an object
    after its brace or a comma.  The fuel bounds the depth of the
    calls; twice the length of the text is enough
    ([JSON_fuel_suffices]). *)
Fixpoint value (fuel : nat) (s : jsstring) : parsed :=
  match fuel with
  | O => Exhausted
  | S fuel' =>
      match skip_ws s with
      | [] => Invalid
      | c :: s' =>
          if c =? 123 then
            match skip_ws s' with
            | c' :: s'' =>
                if c' =? 125 then Parsed (JObject []) s''
                else members fuel' s' []
            | [] => Invalid
            end
          else if c =? 91 then
            match skip_ws s' with
            | c' :: s'' =>
                if c' =? 93 then Parsed (JArray []) s''
                else elements fuel' s' []
            | [] => Invalid
            end
          else if c =? QUOTE then of_option _ JString (string_body s' [])
          else if c =? 116 then
            of_option _ (fun _ => JBool true)
              (option_map (pair tt) (word (str "rue") s'))
          else if c =? 102 then
            of_option _ (fun _ => JBool false)
              (option_map (pair tt) (word (str "alse") s'))
          else if c =? 110 then
            of_option _ (fun _ => JNull)
              (option_map (pair tt) (word (str "ull") s'))
          else of_option _ JNumber (number (c :: s'))
      end
  end
with elements (fuel : nat) (s : jsstring) (acc : list JSValue) : parsed :=
  match fuel with
  | O => Exhausted
  | S fuel' =>
      match value fuel' s with
      | Parsed v rest =>
          match skip_ws rest with
          | c :: rest' =>
              if c =? 44 then elements fuel' rest' (v :: acc)
              else if c =? 93 then Parsed (JArray (rev (v :: acc))) rest'
              else Invalid
          | [] => Invalid
          end
      | Invalid => Invalid
      | Exhausted => Exhausted
      end
  end
with members (fuel : nat) (s : jsstring) (acc : list (jsstring * JSValue))
  : parsed :=
  match fuel with
  | O => Exhausted
  | S fuel' =>
      match skip_ws s with
      | q :: s' =>
          if q =? QUOTE then
            match string_body s' [] with
            | None => Invalid
            | Some (key, s1) =>
                match skip_ws s1 with
                | colon :: s2 =>
                    if colon =? 58 then
                      match value fuel' s2 with
                      | Parsed v rest =>
                          let acc' := set_property key v acc in
                          match skip_ws rest with
                          | c :: rest' =>
                              if c =? 44 then members fuel' rest' acc'
                              else if c =? 125 then Parsed (JObject acc') rest'
                              else Invalid
                          | [] => Invalid
                          end
                      | Invalid => Invalid
                      | Exhausted => Exhausted
                      end
                    else Invalid
                | [] => Invalid
                end
            end
          else Invalid
      | [] => Invalid
      end
  end.

(** [JSON.parse(text)]: [None] stands for the [SyntaxError]. *)
Definition parse (text : jsstring) : option JSValue :=
  match value (2 * length text + 2) text with
  | Parsed v rest =>
      match skip_ws rest with
      | [] => Some v
      | _ :: _ => None
      end
  | Invalid | Exhausted => None
  end.

End JSON.

(** ** Effects

    The function owns three variables for the time of one call; it
    talks to the outside through [onToken] only.  A computation takes
    the variables and gives the arguments of the calls to [onToken] it
    made, in order, and either a result with the new variables or the
    exception it threw. *)
Record locals := mkLocals {
  buffer : jsstring;
  pending : jsstring;
  decoder : TextDecoder.t
}.

Inductive completion (A : Type) :=
| Normal (a : A) (s : locals)
| Throw (e : exn).

Arguments Normal {A} a s.
Arguments Throw {A} e.

Definition M (A : Type) : Type := locals -> list jsstring * completion A.

Definition ret {A : Type} (a : A) : M A := fun s => ([], Normal a s).

Definition bind {A B : Type} (m : M A) (f : A -> M B) : M B :=
  fun s =>
    match m s with
    | (out, Normal a s') => let (out', c) := f a s' in (out ++ out', c)
    | (out, Throw e) => (out, Throw e)
    end.

Declare Scope js_scope.
Delimit Scope js_scope with js.
Notation "x <- m ;; k" := (bind m (fun x => k))
  (at level 61, m at next level, right associativity) : js_scope.
Notation "m ;; k" := (bind m (fun _ => k))
  (at level 61, right associativity) : js_scope.
Open Scope js_scope.

Definition throw {A : Type} (e : exn) : M A := fun _ => ([], Throw e).

(** [opts.onToken(t)]. *)
Definition onToken (t : jsstring) : M unit := fun s => ([t], Normal tt s).

Definition get {A : Type} (field : locals -> A) : M A :=
  fun s => ([], Normal (field s) s).

Definition set_buffer (b : jsstring) : M unit :=
  fun s => ([], Normal tt (mkLocals b (pending s) (decoder s))).

Definition set_pending (p : jsstring) : M unit :=
  fun s => ([], Normal tt (mkLocals (buffer s) p (decoder s))).

Definition set_decoder (d : TextDecoder.t) : M unit :=
  fun s => ([], Normal tt (mkLocals (buffer s) (pending s) d)).

(** A conversion that may throw. *)
Definition lift {A : Type} (r : A + exn) : M A :=
  match r with
  | inl a => ret a
  | inr e => throw e
  end.

(** [for (const x of l) body(x)], for a body that neither breaks nor
    returns. *)
Fixpoint for_of {A : Type} (l : list A) (body : A -> M unit) : M unit :=
  match l with
  | [] => ret tt
  | x :: l' => body x ;; for_of l' body
  end.

Definition when (b : bool) (m : M unit) : M unit := if b then m else ret tt.

(** ** The transport *)

(** How the body of the response ends after its chunks: the stream
    closes ([read] resolves to [done]), the signal given to [fetch] is
    aborted while [read] is awaited ([read] rejects with the
    [AbortError] of the signal), or the connection fails ([read]
    rejects with the cause). *)
Inductive ending :=
| EndOfStream
| Aborted
| Failed (cause : jsstring).

Record ReadableStream := mkStream {
  chunks : list bytes;
  finish : ending
}.

(** The response: [text] is what [res.text()] gives, [None] when it
    rejects; [body] is [None] for a null body. *)
Record Response := mkResponse {
  ok : bool;
  status : Z;
  statusText : jsstring;
  text : option jsstring;
  body : option ReadableStream
}.

(** What [await fetch(...)] comes to. *)
Inductive fetched :=
| Rejected (e : exn)
| Resolved (res : Response).

(** The name the caller tests, [err?.name === "AbortError"]. *)
Definition name (e : exn) : jsstring :=
  match e with
  | AbortError => str "AbortError"
  | TypeError => str "TypeError"
  | Error _ => str "Error"
  | TransportError _ => str "TypeError"
  end.

Definition isAbortError (e : exn) : bool :=
  jsstring_eqb (name e) (str "AbortError").

(** ** The reader *)
Section Reader.

(** [JSON.parse], [None] for a [SyntaxError]. *)
Variable JSON_parse : jsstring -> option JSValue.

(** [obj?.message?.content ?? ""], line 95. *)
Definition chunk_of (obj : JSValue) : JSValue :=
  nullish_or
    (optional_get (optional_get (Some obj) (str "message")) (str "content"))
    (JString []).

(** [!!obj?.done], line 96. *)
Definition doneFlag_of (obj : JSValue) : bool :=
  ToBoolean (optional_get (Some obj) (str "done")).

(** The body of [for (const line of lines)], lines 84-117. *)
Definition handle_line (line : jsstring) : M unit :=
  let trimmed := trim line in
  if negb (nonempty trimmed) then ret tt
  else
    match JSON_parse trimmed with
    | None => ret tt
    | Some obj =>
        let chunk := chunk_of obj in
        let doneFlag := doneFlag_of obj in
        when (ToBoolean (Some chunk))
          (addend <- lift (ToString chunk) ;;
           p <- get pending ;;
           let (parts, last) := pop (split_ws (p ++ addend)) in
           set_pending (or_empty last) ;;
           for_of parts (fun part => when (nonempty part) (onToken part))) ;;
        when doneFlag
          (p <- get pending ;;
           when (nonempty p) (onToken p ;; set_pending []))
    end.

(** Lines 77-81: the chunk is decoded onto [buffer], which is split at
    the line feeds; the last piece stays in [buffer], the others are
    the lines to handle. *)
Definition split_lines (value : bytes) : M (list jsstring) :=
  d <- get decoder ;;
  let (d', decoded) := TextDecoder.decode d value in
  set_decoder d' ;;
  b <- get buffer ;;
  set_buffer (b ++ decoded) ;;
  b <- get buffer ;;
  let (lines, last) := pop (split_LF b) in
  set_buffer (or_empty last) ;;
  ret lines.

(** One turn of [while (true)] on a chunk, lines 77-118. *)
Definition on_chunk (value : bytes) : M unit :=
  lines <- split_lines value ;;
  for_of lines handle_line.

(** [while (true)], lines 73-119: the chunks in turn, then the end of
    the stream, which leaves the loop or throws. *)
Fixpoint read_loop (values : list bytes) (e : ending) : M unit :=
  match values with
  | value :: values' => on_chunk value ;; read_loop values' e
  | [] =>
      match e with
      | EndOfStream => ret tt
      | Aborted => throw AbortError
      | Failed cause => throw (TransportError cause)
      end
  end.

(** The function from the answer of [fetch] on, lines 58-122. *)
Definition ollamaChatStreamWordByWord (response : fetched) : M unit :=
  match response with
  | Rejected e => throw e
  | Resolved res =>
      if negb (ok res) then
        let txt := match text res with Some t => t | None => [] end in
        throw (Error (str "HTTP_" ++ Number.decimal (status res) ++ [32]
                        ++ (if nonempty txt then txt else statusText res)))
      else
        match body res with
        | None => throw (Error (str "NO_STREAM_BODY"))
        | Some reader =>
            read_loop (chunks reader) (finish reader) ;;
            p <- get pending ;;
            when (nonempty p) (onToken p)
        end
  end.

End Reader.

(** The variables as the function declares them. *)
Definition initial : locals := mkLocals [] [] TextDecoder.fresh.

(** A successful response with the given body. *)
Definition streaming (values : list bytes) (e : ending) : fetched :=
  Resolved (mkResponse true 200 (str "OK") None (Some (mkStream values e))).

(** What a call shows: the calls to [onToken], and how it ended. *)
Definition tokens {A : Type} (r : list jsstring * completion A) : list jsstring :=
  fst r.

Definition thrown {A : Type} (r : list jsstring * completion A) : option exn :=
  match snd r with
  | Normal _ _ => None
  | Throw e => Some e
  end.

(** The text the decoder makes of the whole stream. *)
Definition decoded (values : list bytes) : jsstring :=
  snd (TextDecoder.decode TextDecoder.fresh (concat values)).

(** A line of the stream that is a record with a text fragment: it
    holds no line feed, and parses to a value whose [message.content]
    is the string [fragment] (the empty string when there is none) and
    whose [done] is truthy or not as [done] says. *)
Record record_line := mkRecord {
  line : jsstring;
  fragment : jsstring;
  done : bool
}.

Definition carries (JSON_parse : jsstring -> option JSValue) (r : record_line)
  : bool :=
  no_LF (line r) && nonempty (trim (line r)) &&
  match JSON_parse (trim (line r)) with
  | Some obj =>
      match chunk_of obj with
      | JString f => jsstring_eqb f (fragment r)
      | _ => false
      end
      && Bool.eqb (doneFlag_of obj) (done r)
  | None => false
  end.

(** The text of a sequence of lines, each ended by a line feed. *)
Definition ndtext (ls : list jsstring) : jsstring :=
  flat_map (fun l => l ++ [LF]) ls.

(** What a line does to [pending], read off [handle_line]: the calls to
    [onToken], and the new [pending] or the exception. *)
Definition line_result (JSON_parse : jsstring -> option JSValue)
  (l p : jsstring) : list jsstring * (jsstring + exn) :=
  match handle_line JSON_parse l (mkLocals [] p TextDecoder.fresh) with
  | (out, Normal _ s) => (out, inl (pending s))
  | (out, Throw e) => (out, inr e)
  end.

Fixpoint lines_result (JSON_parse : jsstring -> option JSValue)
  (ls : list jsstring) (p : jsstring) : list jsstring * (jsstring + exn) :=
  match ls with
  | [] => ([], inl p)
  | l :: ls' =>
      match line_result JSON_parse l p with
      | (out, inl p') =>
          let (out', r) := lines_result JSON_parse ls' p' in (out ++ out', r)
      | (out, inr e) => (out, inr e)
      end
  end.

(** A result about [pending] alone, put back among the variables. *)
Definition embed (r : list jsstring * (jsstring + exn)) (b : jsstring)
  (d : TextDecoder.t) : list jsstring * completion unit :=
  (fst r,
   match snd r with
   | inl p => Normal tt (mkLocals b p d)
   | inr e => Throw e
   end).

(** How the loop is left, line 75 and the rejections of [read]. *)
Definition leave (e : ending) (r : list jsstring * completion unit)
  : list jsstring * completion unit :=
  match r with
  | (out, Normal _ s) =>
      match e with
      | EndOfStream => (out, Normal tt s)
      | Aborted => (out, Throw AbortError)
      | Failed cause => (out, Throw (TransportError cause))
      end
  | (out, Throw x) => (out, Throw x)
  end.

(** What the end of the stream adds, lines 75 and 122. *)
Definition conclude (e : ending) (r : list jsstring * completion unit)
  : list jsstring * completion unit :=
  match r with
  | (out, Normal _ s) =>
      match e with
      | EndOfStream =>
          (out ++ (if nonempty (pending s) then [pending s] else []), Normal tt s)
      | Aborted => (out, Throw AbortError)
      | Failed cause => (out, Throw (TransportError cause))
      end
  | (out, Throw x) => (out, Throw x)
  end.

(** ** Example streams *)

(** One record whose fragment holds a two-byte character, as a single
    chunk and cut inside the JSON object, inside the character and
    inside the line. *)
Definition cafe_whole : bytes :=
  json "{'message':{'content':'caf" ++ [Byte.xc3; Byte.xa9]
  ++ ndjson [" au lait'},'done':true}"].

Definition cafe_cut : list bytes :=
  [json "{'message':{'cont"; json "ent':'caf" ++ [Byte.xc3];
   [Byte.xa9] ++ json " au "; ndjson ["lait'},'done':true}"]].

(** Records, written as [json] reads them: two with the completion
    flag and two without. *)
Definition hello_done : string := "{'message':{'content':'hello'},'done':true}".

Definition bon : string := "{'message':{'content':'Bon'}}".

Definition jour_done : string := "{'message':{'content':'jour !'},'done':true}".

Definition more : string := "{'message':{'content':'x'}}".

(** Three records whose fragments are [a], two spaces and [b]. *)
Definition a_spaces_b : bytes :=
  ndjson ["{'message':{'content':'a'},'done':false}";
          "{'message':{'content':'  '},'done':false}";
          "{'message':{'content':'b'},'done':true}"].

(** A record cut inside its line, and the chunk that ends the line and
    begins the next. *)
Definition bon_jour_start : bytes := json "{'message':{'cont".

Definition bon_jour_end : bytes := ndjson ["ent':'Bon jour'}}"] ++ json "{'mess".

Definition bon_jour : string := "{'message':{'content':'Bon jour'}}".

(** The decoder between two characters, after the first of the stream. *)
Definition idle : TextDecoder.t := TextDecoder.mk 0 0 0 0x80 0xBF true.

(** * The plain reader

    [ollamaChatStream] reads the same stream without cutting the text
    into words: every truthy [message.content] is passed to [onToken],
    converted with [String], and the call returns at the first record
    whose [done] is truthy.  It keeps [buffer] and the decoder only;
    the field [pending] of the variables is not one of its variables
    and it leaves it alone. *)
Section PlainReader.

Variable JSON_parse : jsstring -> option JSValue.

(** The body of [for (const line of lines)]: the result tells whether
    the function returns.  What throws in the [try] block, [JSON.parse]
    and [String], is caught, and the handler does nothing: the loop
    goes on with the next line, the test of [done] being skipped. *)
Definition chat_line (line : jsstring) : M bool :=
  let s := trim line in
  if negb (nonempty s) then ret false
  else
    match JSON_parse s with
    | None => ret false
    | Some obj =>
        let token := optional_get (optional_get (Some obj) (str "message"))
                       (str "content") in
        let finished := ToBoolean (optional_get (Some obj) (str "done")) in
        match token with
        | Some v =>
            if ToBoolean (Some v) then
              match ToString v with
              | inl t => onToken t ;; ret finished
              | inr _ => ret false
              end
            else ret finished
        | None => ret finished
        end
    end.

(** [for (const x of l)] with a body that may return from the
    function. *)
Fixpoint for_of_return {A : Type} (l : list A) (body : A -> M bool) : M bool :=
  match l with
  | [] => ret false
  | x :: l' => r <- body x ;; if r then ret true else for_of_return l' body
  end.

(** [while (true)]: a chunk is framed as in the other reader, its
    lines are handled until one returns. *)
Fixpoint chat_loop (values : list bytes) (e : ending) : M unit :=
  match values with
  | value :: values' =>
      lines <- split_lines value ;;
      r <- for_of_return lines chat_line ;;
      if r then ret tt else chat_loop values' e
  | [] =>
      match e with
      | EndOfStream => ret tt
      | Aborted => throw AbortError
      | Failed cause => throw (TransportError cause)
      end
  end.

(** The function from the answer of [fetch] on. *)
Definition ollamaChatStream (response : fetched) : M unit :=
  match response with
  | Rejected e => throw e
  | Resolved res =>
      if negb (ok res) then
        let txt := match text res with Some t => t | None => [] end in
        throw (Error (str "Ollama HTTP " ++ Number.decimal (status res)
                        ++ (if nonempty txt then str ": " ++ txt else [])))
      else
        match body res with
        | None => throw (Error (str "Ollama: no response body"))
        | Some reader => chat_loop (chunks reader) (finish reader)
        end
  end.

End PlainReader.

(** What the lines of a text make the plain reader do, read off
    [for_of_return]: the calls to [onToken], and whether it returns. *)
Definition chat_lines (JSON_parse : jsstring -> option JSValue)
  (ls : list jsstring) : list jsstring * bool :=
  match for_of_return ls (chat_line JSON_parse) initial with
  | (out, Normal r _) => (out, r)
  | (out, Throw _) => (out, false)
  end.

(** A line that ends the plain reader: a record whose [done] is truthy
    and whose content, if truthy, converts to a string. *)
Definition completes (JSON_parse : jsstring -> option JSValue) (l : jsstring)
  : bool :=
  snd (chat_lines JSON_parse [l]).

(** ** Words

    What the word-by-word reader calls a word: a run of white space, or
    a run without white space. *)
Definition all_kind (ws : bool) (t : jsstring) : bool :=
  forallb (fun c => Bool.eqb (isWhiteSpace c) ws) t.

Definition is_run (t : jsstring) : bool := all_kind true t || all_kind false t.

(** * The backend helper [safeStr]

    [safeStr(v, max = 200)] of the payment server: the value as a
    string, trimmed, cut to [max] code units.  A field missing from the
    request body is [undefined], [None] here. *)

(** [s.slice(0, end)] for an integer [end]: a negative [end] counts
    from the end of the string. *)
Definition slice0 (s : jsstring) (end_ : Z) : jsstring :=
  let len := Z.of_nat (length s) in
  let final := if end_ <? 0 then Z.max (len + end_) 0 else Z.min end_ len in
  firstn (Z.to_nat final) s.

Definition safeStr (v : option JSValue) (max : Z) : jsstring + exn :=
  match ToString (nullish_or v (JString [])) with
  | inl t =>
      let s := trim t in
      inl (if max <? Z.of_nat (length s) then slice0 s max else s)
  | inr e => inr e
  end.

(** * The backend helper [asIntCents]

    [asIntCents(v)] of the payment server: [Number(v)], refused when
    it is not finite, rounded, refused when the result is not
    positive.  [None] as a number is NaN. *)

(** The digits of [s] in the given radix, as their count and value. *)
Fixpoint radix_digits (radix : Z) (s : jsstring) (count value : Z) : Z * Z * jsstring :=
  match s with
  | c :: s' =>
      match JSON.hex c with
      | Some d =>
          if d <? radix then radix_digits radix s' (count + 1) (value * radix + d)
          else (count, value, s)
      | None => (count, value, s)
      end
  | [] => (count, value, [])
  end.

(** [StrUnsignedDecimalLiteral] other than [Infinity]: digits with an
    optional fraction, or a fraction alone, and an optional exponent,
    up to the end of the string. *)
Definition unsigned_decimal (neg : bool) (s : jsstring) : option Number.t :=
  let '(ni, vi, s1) := JSON.digits s 0 0 in
  let '(nf, v, s2) :=
    match s1 with
    | c :: s1' => if c =? 46 then JSON.digits s1' 0 vi else (0, vi, s1)
    | [] => (0, vi, s1)
    end in
  if ni + nf =? 0 then None
  else
    match s2 with
    | [] => Some (Number.of_decimal neg v (- nf))
    | c :: s2' =>
        if (c =? 101) || (c =? 69) then
          let sign := match s2' with c' :: _ => c' | [] => 0 end in
          let s3 := if (sign =? 43) || (sign =? 45) then tl s2' else s2' in
          let '(ne, ve, s4) := JSON.digits s3 0 0 in
          match s4 with
          | [] =>
              if ne =? 0 then None
              else Some (Number.of_decimal neg v
                           ((if sign =? 45 then - ve else ve) - nf))
          | _ :: _ => None
          end
        else None
    end.

(** [0x], [0o] and [0b] literals. *)
Definition non_decimal (s : jsstring) : option Number.t :=
  match s with
  | 48 :: p :: s' =>
      let radix :=
        if (p =? 120) || (p =? 88) then 16
        else if (p =? 111) || (p =? 79) then 8
        else if (p =? 98) || (p =? 66) then 2
        else 0 in
      if radix =? 0 then None
      else
        let '(n, v, rest) := radix_digits radix s' 0 0 in
        match rest with
        | [] => if n =? 0 then None else Some (Number.of_ratio false v 1)
        | _ :: _ => None
        end
  | _ => None
  end.

(** [StringToNumber]. *)
Definition StringToNumber (s : jsstring) : option Number.t :=
  let t := trim s in
  match t with
  | [] => Some (Number.Zero false)
  | c :: t' =>
      match non_decimal t with
      | Some n => Some n
      | None =>
          let neg := c =? 45 in
          let u := if (c =? 43) || (c =? 45) then t' else t in
          if jsstring_eqb u (str "Infinity") then Some (Number.Infinity neg)
          else unsigned_decimal neg u
      end
  end.

(** [Number(v)]: an array or an object is first made a string. *)
Definition ToNumber (v : option JSValue) : option Number.t + exn :=
  match v with
  | None => inl None
  | Some JNull => inl (Some (Number.Zero false))
  | Some (JBool b) =>
      inl (Some (if b then Number.of_ratio false 1 1 else Number.Zero false))
  | Some (JNumber n) => inl (Some n)
  | Some (JString s) => inl (StringToNumber s)
  | Some w =>
      match ToString w with
      | inl s => inl (StringToNumber s)
      | inr e => inr e
      end
  end.

(** [Math.round] of a finite number: the nearest integer, the greater
    one of two that are as near. *)
Definition Math_round (x : Number.t) : Z :=
  match x with
  | Number.Finite neg m e =>
      let n := if neg then - m else m in
      if 0 <=? e then n * 2 ^ e
      else (2 * n + 2 ^ (- e)) / 2 ^ (1 - e)
  | _ => 0
  end.

Definition isFinite (x : option Number.t) : bool :=
  match x with
  | Some (Number.Zero _) | Some (Number.Finite _ _ _) => true
  | _ => false
  end.

(** [asIntCents(v)], [None] for [null]. *)
Definition asIntCents (v : option JSValue) : option Z + exn :=
  match ToNumber v with
  | inr e => inr e
  | inl n =>
      if negb (isFinite n) then inl None
      else
        let i := match n with Some x => Math_round x | None => 0 end in
        if i <=? 0 then inl None else inl (Some i)
  end.

(** * Routing by the fragment of the URL *)

(** The pages, [type Page]. *)
Inductive Page := home | ticketing | map_page | assistant | account | architecture.

Definition page_name (p : Page) : jsstring :=
  match p with
  | home => str "home"
  | ticketing => str "ticketing"
  | map_page => str "map"
  | assistant => str "assistant"
  | account => str "account"
  | architecture => str "architecture"
  end.

Definition allowed : list jsstring :=
  [str "home"; str "ticketing"; str "map"; str "assistant"; str "account";
   str "architecture"].

(** [s.replace(/^#\/?/, "")]: a leading [#], with the [/] that may
    follow it, is removed. *)
Definition strip_hash (s : jsstring) : jsstring :=
  match s with
  | 35 :: 47 :: s' => s'
  | 35 :: s' => s'
  | _ => s
  end.

(** [pageFromHash(hash)], [None] for [null]. *)
Definition pageFromHash (hash : jsstring) : option jsstring :=
  let key := trim (strip_hash hash) in
  if existsb (jsstring_eqb key) allowed then Some key else None.

(** The fragment [onNavigate] gives the URL, [`/#/${page}`] read back
    as [window.location.hash]. *)
Definition hash_of (p : Page) : jsstring := str "#/" ++ page_name p.

(** * The tickets kept in the browser *)

Definition TICKETS_KEY_PREFIX : jsstring := str "sfc2030_tickets_".

(** [ticketsKey(userId)], [None] for [null]. *)
Definition ticketsKey (userId : option jsstring) : jsstring :=
  TICKETS_KEY_PREFIX ++
  match userId with
  | Some u => if nonempty u then u else str "guest"
  | None => str "guest"
  end.

(** ** [JSON.stringify]

    On the values [JSON.parse] gives and the objects the application
    builds from strings and numbers: no function, no [undefined], no
    [toJSON] that could be called, no indentation.  The members of an
    object are serialized first and put in the order of [Object.keys]
    afterwards; serializing has no effect, so the order of the two does
    not show. *)

Definition hex_digit (d : Z) : Z := if d <? 10 then 48 + d else 87 + d.

(** [\uXXXX], in small letters. *)
Definition unicode_escape (c : Z) : jsstring :=
  [92; 117; hex_digit (Z.shiftr c 12); hex_digit (Z.land (Z.shiftr c 8) 15);
   hex_digit (Z.land (Z.shiftr c 4) 15); hex_digit (Z.land c 15)].

Definition is_high_surrogate (c : Z) : bool := (0xD800 <=? c) && (c <=? 0xDBFF).
Definition is_low_surrogate (c : Z) : bool := (0xDC00 <=? c) && (c <=? 0xDFFF).

(** The inside of [QuoteJSONString]: the control characters and lone
    surrogates are escaped, a surrogate pair is kept. *)
Fixpoint quote_body (s : jsstring) : jsstring :=
  match s with
  | [] => []
  | c :: s' =>
      if c =? 8 then [92; 98] ++ quote_body s'
      else if c =? 9 then [92; 116] ++ quote_body s'
      else if c =? 10 then [92; 110] ++ quote_body s'
      else if c =? 12 then [92; 102] ++ quote_body s'
      else if c =? 13 then [92; 114] ++ quote_body s'
      else if c =? 34 then [92; 34] ++ quote_body s'
      else if c =? 92 then [92; 92] ++ quote_body s'
      else if c <? 32 then unicode_escape c ++ quote_body s'
      else if is_high_surrogate c then
        match s' with
        | d :: s'' =>
            if is_low_surrogate d then c :: d :: quote_body s''
            else unicode_escape c ++ quote_body s'
        | [] => unicode_escape c
        end
      else if is_low_surrogate c then unicode_escape c ++ quote_body s'
      else c :: quote_body s'
  end.

Definition QuoteJSONString (s : jsstring) : jsstring := [34] ++ quote_body s ++ [34].

(** The value of a key that is an array index: a canonical decimal
    numeral below [2^32 - 1]. *)
Definition array_index (key : jsstring) : option Z :=
  let '(n, v, rest) := JSON.digits key 0 0 in
  match rest with
  | [] =>
      if (0 <? n) && (v <? 2 ^ 32 - 1) && jsstring_eqb (Number.decimal v) key
      then Some v else None
  | _ :: _ => None
  end.

Fixpoint insert_index {A : Type} (i : Z) (x : A) (l : list (Z * A)) : list (Z * A) :=
  match l with
  | [] => [(i, x)]
  | (j, y) :: l' => if i <? j then (i, x) :: l else (j, y) :: insert_index i x l'
  end.

(** The properties in the order of [Object.keys]: the array indices
    in ascending order, then the other keys in the order of their
    creation. *)
Definition own_properties_in_order {A : Type} (props : list (jsstring * A))
  : list (jsstring * A) :=
  let indexed :=
    fold_right (fun p acc => match array_index (fst p) with
                             | Some i => insert_index i p acc
                             | None => acc
                             end) [] (rev props) in
  map snd indexed
  ++ filter (fun p => match array_index (fst p) with Some _ => false | None => true end)
       props.

Fixpoint JSON_stringify (v : JSValue) : jsstring :=
  match v with
  | JNull => str "null"
  | JBool b => if b then str "true" else str "false"
  | JNumber n =>
      match n with
      | Number.Infinity _ => str "null"
      | _ => Number.toString n
      end
  | JString s => QuoteJSONString s
  | JArray l => [91] ++ join [44] (map JSON_stringify l) ++ [93]
  | JObject props =>
      [123]
      ++ join [44]
           (map (fun m => QuoteJSONString (fst m) ++ [58] ++ snd m)
              (own_properties_in_order
                 ((fix members (ps : list (jsstring * JSValue))
                     : list (jsstring * jsstring) :=
                     match ps with
                     | [] => []
                     | (k, w) :: ps' => (k, JSON_stringify w) :: members ps'
                     end) props)))
      ++ [125]
  end.

(** ** The local storage

    A store of strings under string keys.  [setItem] can throw, when
    the quota is reached: [room] tells whether it does not. *)
Definition Storage := jsstring -> option jsstring.

Definition setItem (st : Storage) (key value : jsstring) : Storage :=
  fun k => if jsstring_eqb k key then Some value else st k.

(** [loadLocalTickets(userId)]. *)
Definition loadLocalTickets (st : Storage) (userId : option jsstring)
  : list JSValue :=
  match st (ticketsKey userId) with
  | None => []
  | Some raw =>
      if negb (nonempty raw) then []
      else
        match JSON.parse raw with
        | Some (JArray tickets) => tickets
        | _ => []
        end
  end.

(** [saveLocalTickets(userId, tickets)]: the exception of [setItem] is
    caught and the store is then as it was. *)
Definition saveLocalTickets (room : bool) (st : Storage)
  (userId : option jsstring) (tickets : list JSValue) : Storage :=
  if room then setItem st (ticketsKey userId) (JSON_stringify (JArray tickets))
  else st.

(** A ticket as [handlePurchaseTicket] builds it. *)
Definition sample_ticket : JSValue :=
  JObject
    [(str "id", JString (str "pi_1")); (str "matchId", JString (str "m1"));
     (str "section", JString (str "Tribune Nord")); (str "row", JString (str "B"));
     (str "seat", JString (str "7"));
     (str "price", JNumber (Number.of_decimal false 450 0));
     (str "qrCode", JString (str "pi_1"));
     (str "purchaseDate", JString (str "2030-06-13T18:00:00.000Z"))].

(** * The answers of the FAQ *)

(** [s.startsWith(t)] and [s.includes(t)]. *)
Fixpoint starts_with (s t : jsstring) : bool :=
  match t, s with
  | [], _ => true
  | a :: t', c :: s' => (a =? c) && starts_with s' t'
  | _ :: _, [] => false
  end.

Fixpoint includes (s t : jsstring) : bool :=
  starts_with s t ||
  match s with
  | [] => false
  | _ :: s' => includes s' t
  end.

(** A character of a pattern under the flag [i], for the patterns of
    the page, whose characters are the letters [a] to [z], [e] with an
    acute accent and [o] with a circumflex: it matches itself and its
    capital, 32 below. *)
Definition matches_i (p c : Z) : bool := (c =? p) || (c =? p - 32).

Fixpoint starts_with_i (s word : jsstring) : bool :=
  match word, s with
  | [], _ => true
  | p :: word', c :: s' => matches_i p c && starts_with_i s' word'
  | _ :: _, [] => false
  end.

Fixpoint includes_i (s word : jsstring) : bool :=
  starts_with_i s word ||
  match s with
  | [] => false
  | _ :: s' => includes_i s' word
  end.

(** [/(w1|w2|...)/i.test(s)]. *)
Definition test_i (words : list jsstring) (s : jsstring) : bool :=
  existsb (includes_i s) words.

Definition e_acute : Z := 0xE9.
Definition e_grave : Z := 0xE8.
Definition o_circ : Z := 0xF4.

(** The words of the patterns of lines 173-178. *)
Definition hotel_words : list jsstring :=
  [str "h" ++ [o_circ] ++ str "tel"; str "hotel"; str "logement"].

Definition transport_words : list jsstring :=
  [str "transport"; str "navette"; str "m" ++ [e_acute] ++ str "tro";
   str "metro"; str "bus"].

Definition ticket_words : list jsstring :=
  [str "billet"; str "acheter"; str "prix"; str "paiement"].

Definition food_words : list jsstring :=
  [str "manger"; str "restaurant"; str "nourriture"].

Definition access_words : list jsstring := [str "accessibilit"; str "pmr"].

Definition weather_words : list jsstring :=
  [str "m" ++ [e_acute] ++ str "t" ++ [e_acute] ++ str "o"; str "meteo";
   str "temp" ++ [e_acute] ++ str "rature"; str "temperature"].

(** The FAQ is an object whose values are strings: here the list that
    [Object.entries] gives of it. *)
Definition Faq := list (jsstring * jsstring).

(** [faq[key]]. *)
Fixpoint faq_get (key : jsstring) (faq : Faq) : option jsstring :=
  match faq with
  | [] => None
  | (k, v) :: faq' => if jsstring_eqb k key then Some v else faq_get key faq'
  end.

(** [x || d] for a string or [undefined]. *)
Definition or_else (x : option jsstring) (d : jsstring) : jsstring :=
  match x with
  | Some v => if nonempty v then v else d
  | None => d
  end.

Definition greeting : jsstring :=
  str "Je suis FanBot, votre assistant personnel pour la Coupe du Monde 2030 ! Posez-moi une question (horaires, parking, transports, billetterie, r"
  ++ [e_grave]
  ++ str "gles du stade, etc.).".

(** [defaultMessage], lines 126-131. *)
Definition defaultMessage (faq : Faq) : jsstring :=
  or_else (faq_get (str "default") faq) greeting.

Section FindFaqResponse.

(** [String.prototype.toLowerCase]. *)
Variable toLowerCase : jsstring -> jsstring.

(** The loop of lines 168-171 over [Object.entries(faq)]. *)
Fixpoint key_match (lower : jsstring) (entries : Faq) : option jsstring :=
  match entries with
  | [] => None
  | (key, response) :: entries' =>
      if jsstring_eqb key (str "default") then key_match lower entries'
      else if includes lower (toLowerCase key) then Some response
      else key_match lower entries'
  end.

(** [findFaqResponse(userMessage)], lines 165-181. *)
Definition findFaqResponse (faq : Faq) (userMessage : jsstring) : jsstring :=
  let lower := toLowerCase userMessage in
  match key_match lower faq with
  | Some response => response
  | None =>
      if test_i hotel_words userMessage then
        or_else (faq_get (str "hotels") faq) (defaultMessage faq)
      else if test_i transport_words userMessage then
        or_else (faq_get (str "transport") faq) (defaultMessage faq)
      else if test_i ticket_words userMessage then
        or_else (faq_get (str "billetterie") faq) (defaultMessage faq)
      else if test_i food_words userMessage then
        or_else (faq_get (str "nourriture") faq) (defaultMessage faq)
      else if test_i access_words userMessage then
        or_else (faq_get (str "accessibilit" ++ [e_acute]) faq) (defaultMessage faq)
      else if test_i weather_words userMessage then
        or_else (faq_get (str "m" ++ [e_acute] ++ str "t" ++ [e_acute] ++ str "o") faq)
                (defaultMessage faq)
      else defaultMessage faq
  end.

End FindFaqResponse.

(** Lower case on the letters [A] to [Z]; it is [toLowerCase] on
    strings of ASCII characters. *)
Definition ascii_lower (s : jsstring) : jsstring :=
  map (fun c => if (65 <=? c) && (c <=? 90) then c + 32 else c) s.

(** A table for the examples. *)
Definition faq_sample : Faq :=
  [(str "default", str "Bonjour"); (str "parking", str "P1 et P2");
   (str "horaires", str "18h et 21h"); (str "hotels", str "Voir la liste")].

(** A record whose content [String] cannot convert. *)
Definition unprintable : string :=
  "{'message':{'content':{'toString':1}},'done':true}".

(** * The payment intent

    [POST /api/payments/create-intent], up to the call of Stripe: what
    the server replies without asking Stripe, or what it asks Stripe to
    create.  After the call the reply is Stripe's: the secret and the
    identifier of the intent, or the status 500 when the call fails. *)

Record PaymentIntentParams := {
  amount : Z;
  currency : jsstring;
  receipt_email : option jsstring;
  metadata : list (jsstring * jsstring);
  description : jsstring
}.

Inductive served :=
| Status (code : Z) (error : jsstring)
| Create (params : PaymentIntentParams).

Definition and_then {A B : Type} (x : A + exn) (k : A -> B + exn) : B + exn :=
  match x with
  | inl a => k a
  | inr e => inr e
  end.

(** [x || d]. *)
Definition or_value (x : option JSValue) (d : JSValue) : option JSValue :=
  if ToBoolean x then x else Some d.

Section CreateIntent.

Variable toLowerCase : jsstring -> jsstring.

(** The body of the [try]: [None] when the amount is refused. *)
Definition create_intent_params (body : option JSValue)
  : option PaymentIntentParams + exn :=
  let b := or_value body (JObject []) in
  and_then (asIntCents (optional_get b (str "amount"))) (fun amount =>
  and_then (safeStr (or_value (optional_get b (str "currency")) (JString (str "eur"))) 10)
    (fun currency =>
  let currency := toLowerCase currency in
  match amount with
  | None => inl None
  | Some amount =>
      and_then (safeStr (optional_get b (str "matchName")) 200) (fun matchName =>
      and_then (safeStr (optional_get b (str "stadiumName")) 200) (fun stadiumName =>
      and_then (safeStr (optional_get b (str "date")) 40) (fun date =>
      and_then (safeStr (optional_get b (str "time")) 20) (fun time =>
      and_then (safeStr (optional_get b (str "section")) 80) (fun section =>
      and_then (safeStr (optional_get b (str "seat")) 40) (fun seat =>
      and_then (safeStr (optional_get b (str "customerName")) 120) (fun customerName =>
      and_then (safeStr (optional_get b (str "customerEmail")) 120) (fun customerEmail =>
      inl (Some {|
        amount := amount;
        currency := currency;
        receipt_email := if nonempty customerEmail then Some customerEmail else None;
        metadata :=
          [(str "matchName", matchName); (str "stadiumName", stadiumName);
           (str "date", date); (str "time", time); (str "section", section);
           (str "seat", seat); (str "customerName", customerName);
           (str "customerEmail", customerEmail)];
        description :=
          if nonempty matchName then str "Smart Fan 2030 - " ++ matchName
          else str "Smart Fan 2030 Ticket"
      |})))))))))
  end)).

(** [key] tells whether [STRIPE_SECRET_KEY] is set. *)
Definition create_intent (key : bool) (body : option JSValue) : served :=
  if negb key then Status 500 (str "STRIPE_SECRET_KEY manquant (backend/.env)")
  else
    match create_intent_params body with
    | inl (Some params) => Create params
    | inl None => Status 400 (str "amount (cents) invalide")
    | inr _ =>
        Status 500
          (str "Erreur cr" ++ [e_acute] ++ str "ation PaymentIntent (v" ++ [e_acute]
           ++ str "rifie STRIPE_SECRET_KEY et la connexion Stripe)")
    end.

End CreateIntent.

(** The bounds of the metadata, in their order. *)
Definition metadata_bounds : list (jsstring * Z) :=
  [(str "matchName", 200); (str "stadiumName", 200); (str "date", 40);
   (str "time", 20); (str "section", 80); (str "seat", 40);
   (str "customerName", 120); (str "customerEmail", 120)].

Definition within (m : jsstring * jsstring) (b : jsstring * Z) : Prop :=
  fst m = fst b /\ Z.of_nat (length (snd m)) <= snd b.

(** A body for the examples, and what is asked of Stripe for it. *)
Definition sample_body : string :=
  "{'amount':4500,'currency':' EUR ','matchName':'Maroc - Espagne','customerEmail':'fan@example.com'}".

Definition sample_params : PaymentIntentParams := {|
  amount := 4500;
  currency := str "eur";
  receipt_email := Some (str "fan@example.com");
  metadata :=
    [(str "matchName", str "Maroc - Espagne"); (str "stadiumName", []);
     (str "date", []); (str "time", []); (str "section", []); (str "seat", []);
     (str "customerName", []); (str "customerEmail", str "fan@example.com")];
  description := str "Smart Fan 2030 - Maroc - Espagne"
|}.

(** * Properties *)

(** ** Arrays and strings *)

Lemma pop_snoc {A : Type} (l : list A) (x : A) : pop (l ++ [x]) = (l, Some x).
Proof.
  induction l as [|a l IH]; [reflexivity|].
  cbn [app pop]. rewrite IH.
  destruct (l ++ [x]) eqn:E; [destruct l; discriminate | reflexivity].
Qed.

Lemma pop_spec {A : Type} (l : list A) (d : A) :
  l <> [] -> pop l = (removelast l, Some (last l d)).
Proof.
  intros H. destruct (exists_last H) as (l' & x & ->).
  now rewrite pop_snoc, removelast_last, last_last.
Qed.

Lemma no_LF_nil : no_LF [] = true.
Proof. reflexivity. Qed.

Lemma no_LF_cons (c : Z) (s : jsstring) :
  no_LF (c :: s) = negb (c =? LF) && no_LF s.
Proof.
  unfold no_LF. cbn [existsb]. rewrite negb_orb, (Z.eqb_sym LF c). reflexivity.
Qed.

Lemma no_LF_app (a b : jsstring) : no_LF (a ++ b) = no_LF a && no_LF b.
Proof.
  unfold no_LF. now rewrite existsb_app, negb_orb.
Qed.

Lemma split_LF_not_nil (s : jsstring) : split_LF s <> [].
Proof.
  induction s as [|c s IH]; cbn; [discriminate|].
  destruct (c =? LF); [discriminate|].
  destruct (split_LF s); [contradiction | discriminate].
Qed.

Lemma split_LF_pop (s : jsstring) :
  split_LF s = complete_lines s ++ [unterminated s].
Proof.
  unfold complete_lines, unterminated.
  apply app_removelast_last, split_LF_not_nil.
Qed.

(** A piece without line feed stays whole. *)
Lemma split_LF_piece (r s : jsstring) :
  no_LF r = true -> split_LF (r ++ LF :: s) = r :: split_LF s.
Proof.
  induction r as [|c r IH]; intros H.
  - reflexivity.
  - rewrite no_LF_cons in H. apply andb_prop in H as [Hc Hr].
    cbn [app split_LF]. apply negb_true_iff in Hc. rewrite Hc, (IH Hr).
    reflexivity.
Qed.

Lemma split_LF_whole (r : jsstring) : no_LF r = true -> split_LF r = [r].
Proof.
  induction r as [|c r IH]; intros H; [reflexivity|].
  rewrite no_LF_cons in H. apply andb_prop in H as [Hc Hr].
  cbn [split_LF]. apply negb_true_iff in Hc. now rewrite Hc, (IH Hr).
Qed.

(** The pieces of [split_LF] hold no line feed. *)
Lemma split_LF_no_LF (s : jsstring) : forallb no_LF (split_LF s) = true.
Proof.
  induction s as [|c s IH]; [reflexivity|].
  cbn [split_LF]. destruct (c =? LF) eqn:Hc.
  - cbn [forallb]. now rewrite IH.
  - pose proof (split_LF_not_nil s) as Hn.
    destruct (split_LF s) as [|h t]; [contradiction|].
    cbn [cons_head forallb] in *. rewrite no_LF_cons, Hc. exact IH.
Qed.

(** [split_LF] undoes [ndtext] on lines without line feed. *)
Lemma split_LF_ndtext (ls : list jsstring) (r : jsstring) :
  forallb no_LF ls = true ->
  split_LF (ndtext ls ++ r) = ls ++ split_LF r.
Proof.
  induction ls as [|l ls IH]; intros H; [reflexivity|].
  cbn [forallb] in H. apply andb_prop in H as [Hl Hls].
  cbn [ndtext flat_map]. rewrite <- !app_assoc. cbn [app].
  rewrite (split_LF_piece _ _ Hl). fold (ndtext ls). now rewrite (IH Hls).
Qed.

(** A text is its complete lines, each with its line feed, and the
    unterminated rest. *)
Lemma ndtext_complete_lines (s : jsstring) :
  s = ndtext (complete_lines s) ++ unterminated s.
Proof.
  unfold complete_lines, unterminated.
  induction s as [|c s IH]; [reflexivity|].
  cbn [split_LF]. destruct (c =? LF) eqn:Hc.
  - apply Z.eqb_eq in Hc. subst c.
    pose proof (split_LF_not_nil s) as Hn.
    destruct (split_LF s) as [|h t] eqn:E; [contradiction|].
    change (removelast ([] :: h :: t)) with ([] :: removelast (h :: t)).
    change (last ([] :: h :: t) []) with (last (h :: t) []).
    cbn [ndtext flat_map app]. f_equal. exact IH.
  - pose proof (split_LF_not_nil s) as Hn.
    destruct (split_LF s) as [|h t] eqn:E; [contradiction|].
    cbn [cons_head]. destruct t as [|h' t].
    + cbn in *. now f_equal.
    + change (removelast ((c :: h) :: h' :: t)) with ((c :: h) :: removelast (h' :: t)).
      change (last ((c :: h) :: h' :: t) []) with (last (h' :: t) []).
      change (removelast (h :: h' :: t)) with (h :: removelast (h' :: t)) in IH.
      change (last (h :: h' :: t) []) with (last (h' :: t) []) in IH.
      cbn [ndtext flat_map app] in *. rewrite <- app_assoc in *. cbn [app] in *.
      now f_equal.
Qed.

Lemma complete_lines_no_LF (s : jsstring) : forallb no_LF (complete_lines s) = true.
Proof.
  pose proof (split_LF_no_LF s) as H. rewrite split_LF_pop, forallb_app in H.
  now apply andb_prop in H.
Qed.

Lemma unterminated_no_LF (s : jsstring) : no_LF (unterminated s) = true.
Proof.
  pose proof (split_LF_no_LF s) as H. rewrite split_LF_pop, forallb_app in H.
  apply andb_prop in H as [_ H]. cbn in H. now rewrite andb_true_r in H.
Qed.

(** Framing is incremental: the lines of [a ++ b] are the lines of [a],
    then those of what [a] left followed by [b]. *)
Lemma split_LF_app (a b : jsstring) :
  split_LF (a ++ b) = complete_lines a ++ split_LF (unterminated a ++ b).
Proof.
  rewrite (ndtext_complete_lines a) at 1. rewrite <- app_assoc.
  apply split_LF_ndtext, complete_lines_no_LF.
Qed.

Lemma complete_lines_app (a b : jsstring) :
  complete_lines (a ++ b) = complete_lines a ++ complete_lines (unterminated a ++ b).
Proof.
  unfold complete_lines at 1. rewrite split_LF_app.
  rewrite (split_LF_pop (unterminated a ++ b)), app_assoc.
  now rewrite removelast_last.
Qed.

Lemma unterminated_app (a b : jsstring) :
  unterminated (a ++ b) = unterminated (unterminated a ++ b).
Proof.
  unfold unterminated at 1. rewrite split_LF_app.
  rewrite (split_LF_pop (unterminated a ++ b)), app_assoc.
  now rewrite last_last.
Qed.

Lemma complete_lines_whole (r : jsstring) :
  no_LF r = true -> complete_lines r = [] /\ unterminated r = r.
Proof.
  intros H. unfold complete_lines, unterminated.
  now rewrite (split_LF_whole _ H).
Qed.

Lemma complete_lines_at_boundary (a b : jsstring) :
  unterminated a = [] ->
  complete_lines (a ++ b) = complete_lines a ++ complete_lines b
  /\ unterminated (a ++ b) = unterminated b.
Proof.
  intros H. rewrite complete_lines_app, unterminated_app, H. now split.
Qed.

Lemma complete_lines_line (l b : jsstring) :
  no_LF l = true ->
  complete_lines (l ++ LF :: b) = l :: complete_lines b
  /\ unterminated (l ++ LF :: b) = unterminated b.
Proof.
  intros H. unfold complete_lines, unterminated.
  rewrite (split_LF_piece _ _ H).
  pose proof (split_LF_not_nil b) as Hn.
  destruct (split_LF b); [contradiction | split; reflexivity].
Qed.

Lemma complete_lines_ndtext (ls : list jsstring) (r : jsstring) :
  forallb no_LF ls = true ->
  complete_lines (ndtext ls ++ r) = ls ++ complete_lines r
  /\ unterminated (ndtext ls ++ r) = unterminated r.
Proof.
  intros H. unfold complete_lines, unterminated.
  rewrite (split_LF_ndtext _ _ H), (split_LF_pop r), app_assoc.
  now rewrite !removelast_last, !last_last.
Qed.

Lemma split_runs_not_nil (ws : bool) (s : jsstring) : split_runs ws s <> [].
Proof.
  revert ws. induction s as [|c s IH]; intros ws; cbn.
  - destruct ws; discriminate.
  - destruct (Bool.eqb (isWhiteSpace c) ws); [|discriminate].
    specialize (IH ws). destruct (split_runs ws s); [contradiction | discriminate].
Qed.

Lemma concat_cons_head (c : Z) (l : list jsstring) :
  concat (cons_head c l) = c :: concat l.
Proof. destruct l; reflexivity. Qed.

(** Splitting with a capturing group loses nothing. *)
Lemma concat_split_runs (ws : bool) (s : jsstring) : concat (split_runs ws s) = s.
Proof.
  revert ws. induction s as [|c s IH]; intros ws; cbn [split_runs].
  - destruct ws; reflexivity.
  - destruct (Bool.eqb (isWhiteSpace c) ws); cbn [concat app];
      rewrite concat_cons_head, IH; reflexivity.
Qed.

Lemma concat_filter_nonempty (l : list jsstring) :
  concat (filter nonempty l) = concat l.
Proof.
  induction l as [|x l IH]; [reflexivity|].
  cbn [filter concat]. destruct x; cbn [nonempty concat app]; now rewrite IH.
Qed.

Lemma filter_nonempty_ne (l : list jsstring) :
  Forall (fun t => t <> []) (filter nonempty l).
Proof.
  apply Forall_forall. intros x Hx. apply filter_In in Hx as [_ Hx].
  destruct x; [discriminate | discriminate].
Qed.

Lemma pop_split_ws (s : jsstring) :
  pop (split_ws s) = (removelast (split_ws s), Some (last (split_ws s) [])).
Proof. apply (pop_spec (A:=jsstring)), split_runs_not_nil. Qed.

Lemma split_ws_parts (s : jsstring) :
  concat (removelast (split_ws s)) ++ last (split_ws s) [] = s.
Proof.
  rewrite <- (concat_split_runs false s) at 3. fold (split_ws s).
  rewrite (app_removelast_last [] (split_runs_not_nil false s)) at 3.
  fold (split_ws s). rewrite concat_app. cbn. now rewrite app_nil_r.
Qed.

(** ** The parser *)

Lemma skip_ws_length (s : jsstring) : (length (JSON.skip_ws s) <= length s)%nat.
Proof.
  induction s as [|c s IH]; cbn; [lia|]. destruct (JSON.is_ws c); cbn; lia.
Qed.

Lemma skip_ws_cons_length (s s' : jsstring) (c : Z) :
  JSON.skip_ws s = c :: s' -> (length s' < length s)%nat.
Proof.
  intros H. pose proof (skip_ws_length s) as L. rewrite H in L. cbn in L. lia.
Qed.

Lemma string_body_length (n : nat) :
  forall s acc x rest,
    (length s <= n)%nat ->
    JSON.string_body s acc = Some (x, rest) -> (length rest < length s)%nat.
Proof.
  induction n as [|n IH]; intros s acc x rest Hn H.
  - destruct s; [discriminate | cbn in Hn; lia].
  - destruct s as [|c s]; [discriminate|]. cbn [JSON.string_body] in H.
    destruct (c =? JSON.QUOTE).
    + injection H as _ <-. cbn. lia.
    + destruct (c =? JSON.BACKSLASH).
      * destruct s as [|e s]; [discriminate|].
        destruct (e =? 117).
        -- destruct s as [|h1 [|h2 [|h3 [|h4 s]]]]; try discriminate.
           destruct (JSON.hex4 h1 h2 h3 h4); [|discriminate].
           apply IH in H; cbn in *; lia.
        -- destruct (JSON.escape e); [|discriminate].
           apply IH in H; cbn in *; lia.
      * destruct (c <? 32); [discriminate|].
        apply IH in H; cbn in *; lia.
Qed.

Lemma digits_length (s : jsstring) :
  forall count v count' v' rest,
    JSON.digits s count v = (count', v', rest) ->
    Z.of_nat (length s) + count = Z.of_nat (length rest) + count'
    /\ count <= count'.
Proof.
  induction s as [|c s IH]; intros count v count' v' rest H; cbn [JSON.digits] in H.
  - injection H as <- _ <-. lia.
  - destruct (JSON.is_digit c).
    + apply IH in H. cbn [length]. lia.
    + injection H as <- _ <-. lia.
Qed.

Lemma tl_length (s : jsstring) : (length (tl s) <= length s)%nat.
Proof. destruct s; cbn; lia. Qed.

Lemma number_length (s : jsstring) (n : Number.t) (rest : jsstring) :
  JSON.number s = Some (n, rest) -> (length rest < length s)%nat.
Proof.
  unfold JSON.number. intros H.
  set (neg := match s with c :: _ => c =? 45 | [] => false end) in *.
  set (s1 := if neg then tl s else s) in *.
  assert (length s1 <= length s)%nat as L1
    by (subst s1; destruct neg; [apply tl_length | lia]).
  destruct (JSON.digits s1 0 0) as [[ni vi] s2] eqn:D1.
  apply digits_length in D1 as [D1 D1'].
  destruct ((ni =? 0) || _) eqn:Hni; [discriminate|].
  apply orb_false_iff in Hni as [Hni _]. apply Z.eqb_neq in Hni.
  assert (exists nf v s3, Some (nf, v, s3) =
            match s2 with
            | c :: s2' =>
                if c =? 46 then
                  let '(nf, vf, s3) := JSON.digits s2' 0 vi in
                  if nf =? 0 then None else Some (nf, vf, s3)
                else Some (0, vi, s2)
            | [] => Some (0, vi, s2)
            end /\ (length s3 <= length s2)%nat) as (nf & v & s3 & E & L3).
  { destruct s2 as [|c s2']; [eexists _, _, _; split; [reflexivity | lia]|].
    destruct (c =? 46); [|eexists _, _, _; split; [reflexivity | lia]].
    destruct (JSON.digits s2' 0 vi) as [[nf vf] s3] eqn:D2.
    apply digits_length in D2 as [D2 D2'].
    destruct (nf =? 0); [discriminate|].
    eexists _, _, _; split; [reflexivity | cbn [length]; lia]. }
  rewrite <- E in H.
  destruct s3 as [|c s3']; [injection H as _ <-; lia|].
  destruct ((c =? 101) || (c =? 69)); [|injection H as _ <-; lia].
  set (sign := match s3' with c' :: _ => c' | [] => 0 end) in *.
  set (s4 := if (sign =? 43) || (sign =? 45) then tl s3' else s3') in *.
  assert (length s4 <= length s3')%nat as L4
    by (subst s4; destruct ((sign =? 43) || (sign =? 45)); [apply tl_length | lia]).
  destruct (JSON.digits s4 0 0) as [[ne ve] s5] eqn:D3.
  apply digits_length in D3 as [D3 D3'].
  destruct (ne =? 0); [discriminate|].
  injection H as _ <-. cbn [length] in *. lia.
Qed.

Lemma word_length (w s rest : jsstring) :
  JSON.word w s = Some rest -> (length rest <= length s)%nat.
Proof.
  revert s. induction w as [|a w IH]; intros s H; cbn [JSON.word] in H.
  - injection H as <-. lia.
  - destruct s as [|c s]; [discriminate|].
    destruct (a =? c); [|discriminate]. apply IH in H. cbn. lia.
Qed.

Lemma of_option_length (A : Type) (f : A -> JSValue) (o : option (A * jsstring))
  (n : nat) (v : JSValue) (rest : jsstring) :
  (forall a r, o = Some (a, r) -> (length r <= n)%nat) ->
  JSON.of_option A f o = JSON.Parsed v rest -> (length rest <= n)%nat.
Proof.
  intros Ho H. destruct o as [[a r]|]; [|discriminate].
  injection H as _ <-. now apply (Ho a).
Qed.

(** A parsed value, element list or member list takes at least one
    character. *)
Lemma JSON_consumes (fuel : nat) :
  (forall s v rest,
     JSON.value fuel s = JSON.Parsed v rest -> (length rest < length s)%nat)
  /\ (forall s acc v rest,
        JSON.elements fuel s acc = JSON.Parsed v rest -> (length rest < length s)%nat)
  /\ (forall s acc v rest,
        JSON.members fuel s acc = JSON.Parsed v rest -> (length rest < length s)%nat).
Proof.
  induction fuel as [|fuel (IHv & IHe & IHm)]; [repeat split; discriminate|].
  repeat split.
  - intros s v rest H. cbn [JSON.value] in H.
    destruct (JSON.skip_ws s) as [|c s'] eqn:Es; [discriminate|].
    apply skip_ws_cons_length in Es.
    destruct (c =? 123).
    { destruct (JSON.skip_ws s') as [|c' s''] eqn:Es'; [discriminate|].
      apply skip_ws_cons_length in Es'.
      destruct (c' =? 125); [injection H as _ <-; lia|].
      apply IHm in H. lia. }
    destruct (c =? 91).
    { destruct (JSON.skip_ws s') as [|c' s''] eqn:Es'; [discriminate|].
      apply skip_ws_cons_length in Es'.
      destruct (c' =? 93); [injection H as _ <-; lia|].
      apply IHe in H. lia. }
    assert (length rest <= length s')%nat; [|lia].
    destruct (c =? JSON.QUOTE).
    { eapply of_option_length; [|exact H]. intros a r E.
      apply (string_body_length (length s')) in E; lia. }
    destruct (c =? 116); [|destruct (c =? 102); [|destruct (c =? 110)]].
    1-3: eapply of_option_length; [|exact H]; intros a r E;
      match type of E with option_map _ ?w = _ => destruct w eqn:W end;
      [|discriminate]; injection E as _ <-; now apply word_length in W.
    eapply of_option_length; [|exact H]. intros a r E.
    apply number_length in E. cbn [length] in E. lia.
  - intros s acc v rest H. cbn [JSON.elements] in H.
    destruct (JSON.value fuel s) as [v1 r1| |] eqn:Ev; try discriminate.
    apply IHv in Ev.
    destruct (JSON.skip_ws r1) as [|c r1'] eqn:Er; [discriminate|].
    apply skip_ws_cons_length in Er.
    destruct (c =? 44); [apply IHe in H; lia|].
    destruct (c =? 93); [injection H as _ <-; lia | discriminate].
  - intros s acc v rest H. cbn [JSON.members] in H.
    destruct (JSON.skip_ws s) as [|q s'] eqn:Es; [discriminate|].
    apply skip_ws_cons_length in Es.
    destruct (q =? JSON.QUOTE); [|discriminate].
    destruct (JSON.string_body s' []) as [[key s1]|] eqn:Ek; [|discriminate].
    apply (string_body_length (length s')) in Ek; [|lia].
    destruct (JSON.skip_ws s1) as [|colon s2] eqn:E1; [discriminate|].
    apply skip_ws_cons_length in E1.
    destruct (colon =? 58); [|discriminate].
    destruct (JSON.value fuel s2) as [v1 r1| |] eqn:Ev; try discriminate.
    apply IHv in Ev.
    destruct (JSON.skip_ws r1) as [|c r1'] eqn:Er; [discriminate|].
    apply skip_ws_cons_length in Er.
    destruct (c =? 44); [apply IHm in H; lia|].
    destruct (c =? 125); [injection H as _ <-; lia | discriminate].
Qed.

Lemma of_option_not_exhausted (A : Type) (f : A -> JSValue)
  (o : option (A * jsstring)) : JSON.of_option A f o <> JSON.Exhausted.
Proof. destruct o as [[a r]|]; discriminate. Qed.

Lemma JSON_fuel (fuel : nat) :
  (forall s, (2 * length s + 1 <= fuel)%nat -> JSON.value fuel s <> JSON.Exhausted)
  /\ (forall s acc,
        (2 * length s + 2 <= fuel)%nat -> JSON.elements fuel s acc <> JSON.Exhausted)
  /\ (forall s acc,
        (2 * length s + 2 <= fuel)%nat -> JSON.members fuel s acc <> JSON.Exhausted).
Proof.
  induction fuel as [|fuel (IHv & IHe & IHm)]; [repeat split; intros; lia|].
  destruct (JSON_consumes fuel) as (Cv & _ & _).
  repeat split.
  - intros s Hf. cbn [JSON.value].
    destruct (JSON.skip_ws s) as [|c s'] eqn:Es; [discriminate|].
    apply skip_ws_cons_length in Es.
    destruct (c =? 123).
    { destruct (JSON.skip_ws s') as [|c' s'']; [discriminate|].
      destruct (c' =? 125); [discriminate|]. apply IHm. lia. }
    destruct (c =? 91).
    { destruct (JSON.skip_ws s') as [|c' s'']; [discriminate|].
      destruct (c' =? 93); [discriminate|]. apply IHe. lia. }
    repeat (match goal with |- (if ?b then _ else _) <> _ => destruct b end);
      apply of_option_not_exhausted.
  - intros s acc Hf. cbn [JSON.elements].
    pose proof (IHv s) as Hv.
    destruct (JSON.value fuel s) as [v1 r1| |] eqn:Ev;
      [|discriminate | apply Hv; lia].
    apply Cv in Ev.
    destruct (JSON.skip_ws r1) as [|c r1'] eqn:Er; [discriminate|].
    apply skip_ws_cons_length in Er.
    destruct (c =? 44); [apply IHe; lia|].
    destruct (c =? 93); discriminate.
  - intros s acc Hf. cbn [JSON.members].
    destruct (JSON.skip_ws s) as [|q s'] eqn:Es; [discriminate|].
    apply skip_ws_cons_length in Es.
    destruct (q =? JSON.QUOTE); [|discriminate].
    destruct (JSON.string_body s' []) as [[key s1]|] eqn:Ek; [|discriminate].
    apply (string_body_length (length s')) in Ek; [|lia].
    destruct (JSON.skip_ws s1) as [|colon s2] eqn:E1; [discriminate|].
    apply skip_ws_cons_length in E1.
    destruct (colon =? 58); [|discriminate].
    pose proof (IHv s2) as Hv.
    destruct (JSON.value fuel s2) as [v1 r1| |] eqn:Ev;
      [|discriminate | apply Hv; lia].
    apply Cv in Ev.
    destruct (JSON.skip_ws r1) as [|c r1'] eqn:Er; [discriminate|].
    apply skip_ws_cons_length in Er.
    destruct (c =? 44); [apply IHm; lia|].
    destruct (c =? 125); discriminate.
Qed.

(** The fuel [JSON.parse] gives its parser is never used up: [None]
    is a syntax error of the text. *)
Lemma JSON_fuel_suffices (text : jsstring) :
  JSON.value (2 * length text + 2) text <> JSON.Exhausted.
Proof. apply JSON_fuel. lia. Qed.

(** ** The decoder *)

(** Decoding is incremental: the state carried from one chunk to the
    next makes the chunks decode as their concatenation does. *)
Lemma decode_app (d : TextDecoder.t) (a b : bytes) :
  TextDecoder.decode d (a ++ b) =
  let (d1, out1) := TextDecoder.decode d a in
  let (d2, out2) := TextDecoder.decode d1 b in
  (d2, out1 ++ out2).
Proof.
  revert d. induction a as [|x a IH]; intros d; cbn [app TextDecoder.decode].
  - now destruct (TextDecoder.decode d b).
  - destruct (TextDecoder.step d x) as [d1 o1]. rewrite IH.
    destruct (TextDecoder.decode d1 a) as [d2 o2].
    destruct (TextDecoder.decode d2 b) as [d3 o3].
    now rewrite app_assoc.
Qed.

(** ** The loop body *)
Section ReaderFacts.

Variable JSON_parse : jsstring -> option JSValue.

Local Abbreviation handle_line := (handle_line JSON_parse).
Local Abbreviation line_result := (line_result JSON_parse).
Local Abbreviation lines_result := (lines_result JSON_parse).
Local Abbreviation on_chunk := (on_chunk JSON_parse).
Local Abbreviation read_loop := (read_loop JSON_parse).
Local Abbreviation reader := (ollamaChatStreamWordByWord JSON_parse).

Lemma for_of_emit (parts : list jsstring) (s : locals) :
  for_of parts (fun part => when (nonempty part) (onToken part)) s
  = (filter nonempty parts, Normal tt s).
Proof.
  induction parts as [|x parts IH]; [reflexivity|].
  cbn [for_of filter]. unfold bind.
  destruct x; cbn [nonempty when]; [unfold ret at 1 | unfold onToken at 1];
    now rewrite IH.
Qed.

(** The body of the loop over the lines, as a function of [pending]. *)
Lemma handle_line_eq (l : jsstring) (s : locals) :
  handle_line l s =
  if negb (nonempty (trim l)) then ([], Normal tt s)
  else
    match JSON_parse (trim l) with
    | None => ([], Normal tt s)
    | Some obj =>
        if ToBoolean (Some (chunk_of obj)) then
          match ToString (chunk_of obj) with
          | inr e => ([], Throw e)
          | inl addend =>
              let parts := split_ws (pending s ++ addend) in
              let out := filter nonempty (removelast parts) in
              let p := last parts [] in
              if doneFlag_of obj then
                (out ++ (if nonempty p then [p] else []),
                 Normal tt (mkLocals (buffer s) [] (decoder s)))
              else (out, Normal tt (mkLocals (buffer s) p (decoder s)))
          end
        else if doneFlag_of obj then
          (if nonempty (pending s) then [pending s] else [],
           Normal tt (mkLocals (buffer s) [] (decoder s)))
        else ([], Normal tt s)
    end.
Proof.
  unfold handle_line.
  destruct (negb (nonempty (trim l))); [reflexivity|].
  destruct (JSON_parse (trim l)) as [obj|]; [|reflexivity].
  destruct s as [b p d].
  destruct (ToBoolean (Some (chunk_of obj))); cbn [when].
  - unfold bind at 1. unfold bind at 1.
    destruct (ToString (chunk_of obj)) as [addend|e]; cbn [lift]; [|reflexivity].
    unfold ret at 1. unfold bind at 1. unfold get at 1. cbn [pending].
    rewrite pop_split_ws. unfold bind at 1. unfold set_pending at 1.
    cbn [buffer pending decoder or_empty]. rewrite for_of_emit. cbn [app].
    destruct (doneFlag_of obj); cbn [when].
    + unfold bind, get, set_pending, onToken, when, ret. cbn [pending buffer decoder].
      destruct (last (split_ws (p ++ addend)) []) eqn:E; cbn [nonempty app];
        now rewrite ?app_nil_r.
    + unfold ret. now rewrite app_nil_r.
  - unfold bind at 1. unfold ret at 1. cbn [app].
    destruct (doneFlag_of obj); cbn [when]; [|reflexivity].
    unfold bind, get, set_pending, onToken, when, ret. cbn [pending buffer decoder].
    destruct p; reflexivity.
Qed.

(** A line reads and writes [pending] only. *)
Lemma handle_line_frame (l : jsstring) (s : locals) :
  handle_line l s = embed (line_result l (pending s)) (buffer s) (decoder s).
Proof.
  unfold line_result. rewrite !handle_line_eq. cbn [pending buffer decoder].
  destruct s as [b p d]. cbn [pending buffer decoder].
  destruct (negb (nonempty (trim l))); [reflexivity|].
  destruct (JSON_parse (trim l)) as [obj|]; [|reflexivity].
  destruct (ToBoolean (Some (chunk_of obj))).
  - destruct (ToString (chunk_of obj)); [|reflexivity].
    cbv zeta. destruct (doneFlag_of obj); reflexivity.
  - destruct (doneFlag_of obj); reflexivity.
Qed.

Lemma for_of_lines (ls : list jsstring) (s : locals) :
  for_of ls handle_line s
  = embed (lines_result ls (pending s)) (buffer s) (decoder s).
Proof.
  revert s. induction ls as [|l ls IH]; intros s.
  - destruct s; reflexivity.
  - cbn [for_of lines_result]. unfold bind. rewrite handle_line_frame.
    unfold embed at 1. destruct (line_result l (pending s)) as [out [p|e]];
      cbn [fst snd]; [|reflexivity].
    rewrite IH. cbn [pending buffer decoder].
    destruct (lines_result ls p) as [out' r]. reflexivity.
Qed.

Lemma lines_result_app (ls ls' : list jsstring) (p : jsstring) :
  lines_result (ls ++ ls') p =
  match lines_result ls p with
  | (out, inl p') => let (out', r) := lines_result ls' p' in (out ++ out', r)
  | (out, inr e) => (out, inr e)
  end.
Proof.
  revert p. induction ls as [|l ls IH]; intros p; cbn [app lines_result].
  - now destruct (lines_result ls' p).
  - destruct (line_result l p) as [out [p1|e]]; [|reflexivity].
    rewrite IH. destruct (lines_result ls p1) as [out1 [p2|e]]; [|reflexivity].
    destruct (lines_result ls' p2) as [out2 r]. now rewrite app_assoc.
Qed.

(** The framing step: the complete lines of [buffer] followed by the
    decoded chunk are handed over, the unterminated rest is kept. *)
Lemma split_lines_eq (value : bytes) (s : locals) :
  split_lines value s =
  let (d, t) := TextDecoder.decode (decoder s) value in
  ([], Normal (complete_lines (buffer s ++ t))
              (mkLocals (unterminated (buffer s ++ t)) (pending s) d)).
Proof.
  unfold split_lines. unfold bind at 1. unfold get at 1.
  destruct (TextDecoder.decode (decoder s) value) as [d t].
  unfold bind, get, set_decoder, set_buffer, ret. cbn [buffer pending decoder].
  rewrite (pop_spec (A:=jsstring) _ [] (split_LF_not_nil (buffer s ++ t))).
  reflexivity.
Qed.

(** One turn of the loop: the lines completed by the chunk are handled,
    the rest is kept. *)
Lemma on_chunk_eq (value : bytes) (s : locals) :
  on_chunk value s =
  let (d, t) := TextDecoder.decode (decoder s) value in
  embed (lines_result (complete_lines (buffer s ++ t)) (pending s))
        (unterminated (buffer s ++ t)) d.
Proof.
  unfold on_chunk. unfold bind at 1. rewrite split_lines_eq.
  destruct (TextDecoder.decode (decoder s) value) as [d t].
  rewrite for_of_lines. cbn [buffer pending decoder app].
  unfold embed. now destruct (lines_result _ _) as [out [p|e]].
Qed.

(** The loop sees the stream as one text: it handles the complete
    lines of what the chunks decode to, in order, whatever the chunk
    boundaries are. *)
Lemma read_loop_eq (values : list bytes) (e : ending) (s : locals) :
  no_LF (buffer s) = true ->
  read_loop values e s =
  let (d, t) := TextDecoder.decode (decoder s) (concat values) in
  leave e (embed (lines_result (complete_lines (buffer s ++ t)) (pending s))
                 (unterminated (buffer s ++ t)) d).
Proof.
  revert s. induction values as [|value values IH]; intros s Hb.
  - cbn [concat TextDecoder.decode read_loop]. rewrite app_nil_r.
    destruct (complete_lines_whole _ Hb) as [-> ->]. destruct s, e; reflexivity.
  - cbn [concat read_loop]. unfold bind. rewrite on_chunk_eq, decode_app.
    destruct (TextDecoder.decode (decoder s) value) as [d1 t1].
    destruct (TextDecoder.decode d1 (concat values)) as [d2 t2] eqn:E2.
    rewrite (app_assoc (buffer s) t1 t2), (complete_lines_app (buffer s ++ t1) t2),
      (unterminated_app (buffer s ++ t1) t2), lines_result_app.
    unfold embed at 1.
    destruct (lines_result (complete_lines (buffer s ++ t1)) (pending s))
      as [out [p|x]]; cbn [fst snd]; [|reflexivity].
    rewrite IH by apply unterminated_no_LF. cbn [buffer pending decoder].
    rewrite E2. unfold embed.
    destruct (lines_result _ p) as [out' [p'|x]]; cbn [fst snd leave];
      destruct e; reflexivity.
Qed.

(** The whole call on a successful response with a body. *)
Lemma reader_eq (values : list bytes) (e : ending) :
  reader (streaming values e) initial =
  conclude e (embed (lines_result (complete_lines (decoded values)) [])
                    (unterminated (decoded values))
                    (fst (TextDecoder.decode TextDecoder.fresh (concat values)))).
Proof.
  unfold ollamaChatStreamWordByWord, streaming, decoded.
  cbn [ok body chunks finish negb]. unfold bind at 1.
  rewrite read_loop_eq by reflexivity. cbn [initial buffer pending decoder app].
  destruct (TextDecoder.decode TextDecoder.fresh (concat values)) as [d t].
  cbn [fst snd]. unfold embed.
  destruct (lines_result (complete_lines t) []) as [out [p|x]]; cbn [fst snd leave conclude].
  - destruct e; cbn [leave conclude]; try reflexivity.
    unfold bind, get, when, onToken, ret. cbn [pending].
    destruct p; cbn [nonempty]; reflexivity.
  - reflexivity.
Qed.

(** ** Chunk boundaries *)

(** C3: however one byte sequence is cut into chunks (inside a
    multi-byte character, a line or a JSON object), the call makes the
    same calls to [onToken] and ends the same way; in particular the
    concatenation of the emitted fragments is the same. *)
Theorem chunk_boundary_independence (values values' : list bytes) (e : ending) :
  concat values = concat values' ->
  reader (streaming values e) initial = reader (streaming values' e) initial
  /\ concat (tokens (reader (streaming values e) initial))
     = concat (tokens (reader (streaming values' e) initial)).
Proof.
  intros H.
  assert (reader (streaming values e) initial = reader (streaming values' e) initial) as E.
  { rewrite !reader_eq. unfold decoded. now rewrite H. }
  split; [exact E | now rewrite E].
Qed.

(** ** The line buffer *)

(** The variables between two chunks: [buffer] is the unterminated
    end of the text received, the decoder is where that text left it,
    and the calls made and [pending] are those of the complete lines. *)
Lemma read_loop_initial_state (values : list bytes) (out : list jsstring)
  (s : locals) :
  read_loop values EndOfStream initial = (out, Normal tt s) ->
  lines_result (complete_lines (decoded values)) [] = (out, inl (pending s))
  /\ buffer s = unterminated (decoded values)
  /\ decoder s = fst (TextDecoder.decode TextDecoder.fresh (concat values)).
Proof.
  intros H. rewrite (read_loop_eq values EndOfStream initial eq_refl) in H.
  cbn [initial buffer pending decoder app] in H. unfold decoded.
  destruct (TextDecoder.decode TextDecoder.fresh (concat values)) as [d t].
  cbn [fst snd]. unfold embed in H.
  destruct (lines_result (complete_lines t) []) as [o [p|x]];
    cbn [fst snd leave] in H; [|discriminate].
  injection H as -> <-. now repeat split.
Qed.

Lemma decoded_snoc (values : list bytes) (value : bytes) :
  decoded (values ++ [value])
  = decoded values
    ++ snd (TextDecoder.decode
              (fst (TextDecoder.decode TextDecoder.fresh (concat values))) value).
Proof.
  unfold decoded. rewrite concat_app. cbn [concat]. rewrite app_nil_r, decode_app.
  destruct (TextDecoder.decode TextDecoder.fresh (concat values)) as [d t].
  cbn [fst snd]. now destruct (TextDecoder.decode d value).
Qed.

Lemma ndtext_app (ls ls' : list jsstring) : ndtext (ls ++ ls') = ndtext ls ++ ndtext ls'.
Proof.
  unfold ndtext. apply flat_map_app.
Qed.

(** C8: for every sequence of chunks the loop has gone through, from
    the start of the call, and every chunk that comes next, when the
    line-splitting step of that chunk has completed [buffer] holds no
    line feed.  The step itself calls [onToken] not at all; the lines
    it hands over hold no line feed, and the lines of the earlier
    chunks, then these, each with its line feed, then the new [buffer],
    make up the whole text received: every line ended by a line feed
    has been handed over and only the unterminated rest is kept.
    Handed over they are: the calls made so far and [pending] are those
    of [handle_line] on the earlier lines in order, the turn of the
    loop goes on with [handle_line] on the new lines in order, and
    handling them leaves [buffer] as the step made it. *)
Theorem buffer_holds_no_line_feed (values : list bytes) (value : bytes)
  (out : list jsstring) (s : locals) :
  read_loop values EndOfStream initial = (out, Normal tt s) ->
  exists lines s',
    split_lines value s = ([], Normal lines s')
    /\ no_LF (buffer s') = true
    /\ forallb no_LF lines = true
    /\ decoded (values ++ [value])
       = ndtext (complete_lines (decoded values) ++ lines) ++ buffer s'
    /\ for_of (complete_lines (decoded values)) handle_line initial
       = (out, Normal tt (mkLocals [] (pending s) TextDecoder.fresh))
    /\ on_chunk value s = for_of lines handle_line s'
    /\ (forall out' s'', on_chunk value s = (out', Normal tt s'') ->
                         buffer s'' = buffer s').
Proof.
  intros H. destruct (read_loop_initial_state values out s H) as (Hl & Hb & Hd).
  pose proof (on_chunk_eq value s) as Hc.
  assert (on_chunk value s
          = (let (o, c) := let (ls, s') := (let (d, t) := TextDecoder.decode (decoder s) value in
                                              (complete_lines (buffer s ++ t),
                                               mkLocals (unterminated (buffer s ++ t))
                                                        (pending s) d)) in
                           for_of ls handle_line s' in (o, c))) as Hs.
  { unfold on_chunk, bind. rewrite split_lines_eq.
    destruct (TextDecoder.decode (decoder s) value) as [d t].
    now destruct (for_of _ handle_line _). }
  rewrite split_lines_eq, decoded_snoc, <- Hd.
  destruct (TextDecoder.decode (decoder s) value) as [d t]. cbn [snd] in *.
  eexists _, _. split; [reflexivity|]. cbn [buffer].
  split; [apply unterminated_no_LF|].
  split; [apply complete_lines_no_LF|].
  split.
  { rewrite ndtext_app, <- app_assoc, <- (ndtext_complete_lines (buffer s ++ t)).
    rewrite Hb, app_assoc. f_equal. apply ndtext_complete_lines. }
  split.
  { rewrite for_of_lines. cbn [initial pending buffer decoder]. now rewrite Hl. }
  split.
  { rewrite Hs. now destruct (for_of _ handle_line _). }
  intros out' s'' E. rewrite Hc in E. unfold embed in E.
  destruct (snd (lines_result _ _)) as [p|x]; [|discriminate].
  now injection E as _ <-.
Qed.

(** ** Emitted fragments *)

Lemma line_result_nonempty (l p : jsstring) :
  Forall (fun t => t <> []) (fst (line_result l p)).
Proof.
  unfold line_result. rewrite handle_line_eq. cbn [pending buffer decoder].
  destruct (negb (nonempty (trim l))); [constructor|].
  destruct (JSON_parse (trim l)) as [obj|]; [|constructor].
  destruct (ToBoolean (Some (chunk_of obj))).
  - destruct (ToString (chunk_of obj)) as [addend|x]; [|constructor].
    cbv zeta. destruct (doneFlag_of obj); cbn [fst].
    + apply Forall_app. split; [apply filter_nonempty_ne|].
      destruct (last (split_ws (p ++ addend)) []); cbn [nonempty];
        repeat constructor; discriminate.
    + apply filter_nonempty_ne.
  - destruct (doneFlag_of obj); cbn [fst]; [|constructor].
    destruct p; cbn [nonempty]; repeat constructor; discriminate.
Qed.

Lemma lines_result_nonempty (ls : list jsstring) (p : jsstring) :
  Forall (fun t => t <> []) (fst (lines_result ls p)).
Proof.
  revert p. induction ls as [|l ls IH]; intros p; cbn [lines_result]; [constructor|].
  pose proof (line_result_nonempty l p) as H.
  destruct (line_result l p) as [out [p'|x]]; cbn [fst] in *; [|exact H].
  specialize (IH p'). destruct (lines_result ls p') as [out' r]. cbn [fst] in *.
  apply Forall_app. now split.
Qed.

Lemma read_loop_nonempty (values : list bytes) (e : ending) (s : locals) :
  Forall (fun t => t <> []) (fst (read_loop values e s)).
Proof.
  revert s. induction values as [|value values IH]; intros s; cbn [read_loop].
  - destruct e; constructor.
  - unfold bind. rewrite on_chunk_eq.
    destruct (TextDecoder.decode (decoder s) value) as [d t]. unfold embed.
    pose proof (lines_result_nonempty (complete_lines (buffer s ++ t)) (pending s)) as H.
    destruct (lines_result _ _) as [out [p|x]]; cbn [fst snd] in *; [|exact H].
    specialize (IH (mkLocals (unterminated (buffer s ++ t)) p d)).
    destruct (read_loop values e _) as [out' c]. cbn [fst] in *.
    apply Forall_app. now split.
Qed.

(** C10: whatever [fetch] answers and whatever the stream holds, every
    call to [onToken] passes a string that is not empty, in the loop
    over the parts as in the two flushes. *)
Theorem emitted_tokens_nonempty (response : fetched) :
  Forall (fun t => t <> []) (tokens (reader response initial)).
Proof.
  unfold tokens, ollamaChatStreamWordByWord.
  destruct response as [x|res]; [constructor|].
  destruct (negb (ok res)); [constructor|].
  destruct (body res) as [r|]; [|constructor].
  unfold bind at 1.
  pose proof (read_loop_nonempty (chunks r) (finish r) initial) as H.
  destruct (read_loop (chunks r) (finish r) initial) as [out [[] s|x]];
    cbn [fst] in *; [|exact H].
  unfold bind, get, when, onToken, ret.
  destruct (pending s); cbn [nonempty app fst]; apply Forall_app; split;
    try exact H; repeat constructor; discriminate.
Qed.

(** ** The response *)

(** C6: on a response with a success status, which is what the reader
    is given, and without body, the call fails with [NO_STREAM_BODY]
    before anything is read, and [onToken] is not called. *)
Theorem no_stream_body (res : Response) :
  ok res = true ->
  body res = None ->
  reader (Resolved res) initial = ([], Throw (Error (str "NO_STREAM_BODY")))
  /\ tokens (reader (Resolved res) initial) = [].
Proof.
  intros Ho Hb. unfold tokens, ollamaChatStreamWordByWord. rewrite Ho, Hb.
  split; reflexivity.
Qed.

(** ** The end of the stream *)

Lemma read_loop_leave (values : list bytes) (e : ending) (s : locals) :
  read_loop values e s = leave e (read_loop values EndOfStream s).
Proof.
  revert s. induction values as [|value values IH]; intros s; cbn [read_loop].
  - destruct e; reflexivity.
  - unfold bind. destruct (on_chunk value s) as [out [[] s'|x]]; [|reflexivity].
    rewrite IH. destruct (read_loop values EndOfStream s') as [out' [[] s''|x]];
      destruct e; reflexivity.
Qed.

(** C4: when the chunks [values] have been read, with the calls [out]
    made and the variables [s] (so with [pending s] not yet emitted),
    and the signal is aborted while the next chunk is awaited, the call
    ends with [AbortError] having made the calls [out] and no other:
    [pending s] is dropped, whereas the end of the stream would have
    flushed it.  The caller tells this outcome from any other error by
    the test [isAbortError]. *)
Theorem cancellation_discards_pending (values : list bytes)
  (out : list jsstring) (s : locals) :
  read_loop values EndOfStream initial = (out, Normal tt s) ->
  reader (streaming values Aborted) initial = (out, Throw AbortError)
  /\ reader (streaming values EndOfStream) initial
     = (out ++ (if nonempty (pending s) then [pending s] else []), Normal tt s)
  /\ isAbortError AbortError = true
  /\ (forall message cause,
        isAbortError TypeError = false
        /\ isAbortError (Error message) = false
        /\ isAbortError (TransportError cause) = false).
Proof.
  intros H. unfold ollamaChatStreamWordByWord, streaming.
  cbn [ok body chunks finish negb].
  split; [|split; [|repeat split]].
  - unfold bind. now rewrite (read_loop_leave values Aborted), H.
  - unfold bind at 1. rewrite H. unfold bind, get, when, onToken, ret.
    destruct (pending s); reflexivity.
Qed.

(** C9: bytes that arrive after the last line feed and decode to text
    without line feed, be it a complete JSON record, change nothing to
    what a stream that then ends shows: the same calls to [onToken] and
    the same outcome as without them.  The text they decode to stays in
    [buffer] and is never handled. *)
Theorem unterminated_line_is_dropped (values : list bytes) (extra : bytes) :
  no_LF (snd (TextDecoder.decode
                (fst (TextDecoder.decode TextDecoder.fresh (concat values))) extra))
  = true ->
  tokens (reader (streaming (values ++ [extra]) EndOfStream) initial)
  = tokens (reader (streaming values EndOfStream) initial)
  /\ thrown (reader (streaming (values ++ [extra]) EndOfStream) initial)
     = thrown (reader (streaming values EndOfStream) initial).
Proof.
  intros H. rewrite !reader_eq. unfold decoded.
  rewrite concat_app. cbn [concat]. rewrite app_nil_r, decode_app.
  destruct (TextDecoder.decode TextDecoder.fresh (concat values)) as [d t].
  cbn [fst snd] in *.
  destruct (TextDecoder.decode d extra) as [d' t']. cbn [fst snd] in *.
  rewrite complete_lines_app.
  assert (no_LF (unterminated t ++ t') = true) as Hn
    by (rewrite no_LF_app, unterminated_no_LF, H; reflexivity).
  destruct (complete_lines_whole _ Hn) as [-> _]. rewrite app_nil_r.
  unfold embed, tokens, thrown.
  destruct (lines_result (complete_lines t) []) as [out [p|x]];
    cbn [fst snd conclude]; split; reflexivity.
Qed.

(** ** Lines that are not records *)

Lemma line_result_skip (bad p : jsstring) :
  nonempty (trim bad) = false \/ JSON_parse (trim bad) = None ->
  line_result bad p = ([], inl p).
Proof.
  intros H. unfold line_result. rewrite handle_line_eq.
  destruct (nonempty (trim bad)) eqn:E; cbn [negb]; [|reflexivity].
  destruct H as [H|H]; [discriminate|]. now rewrite H.
Qed.

(** C5: a line whose trimmed form is empty or is not JSON, put in the
    text of the stream at the start of a line, makes no call to
    [onToken] and throws nothing: the stream with the line shows the
    calls and the outcome of the stream without it. *)
Theorem malformed_line_is_skipped (values values' : list bytes)
  (a b bad : jsstring) (e : ending) :
  decoded values = a ++ b ->
  decoded values' = a ++ bad ++ LF :: b ->
  unterminated a = [] ->
  no_LF bad = true ->
  nonempty (trim bad) = false \/ JSON_parse (trim bad) = None ->
  tokens (reader (streaming values' e) initial)
  = tokens (reader (streaming values e) initial)
  /\ thrown (reader (streaming values' e) initial)
     = thrown (reader (streaming values e) initial)
  /\ (forall s, handle_line bad s = ([], Normal tt s)).
Proof.
  intros Hv Hv' Ha Hbad Hskip.
  assert (forall p, line_result bad p = ([], inl p)) as Hline
    by (intros p; now apply line_result_skip).
  destruct (complete_lines_at_boundary a b Ha) as [Lb Ub].
  destruct (complete_lines_at_boundary a (bad ++ LF :: b) Ha) as [Lb' Ub'].
  destruct (complete_lines_line bad b Hbad) as [Ll Ul].
  assert (lines_result (complete_lines (decoded values')) []
          = lines_result (complete_lines (decoded values)) []) as E.
  { rewrite Hv, Hv', Lb, Lb', Ll, !lines_result_app.
    destruct (lines_result (complete_lines a) []) as [out [p|x]]; [|reflexivity].
    cbn [lines_result]. rewrite Hline. cbn [app].
    now destruct (lines_result (complete_lines b) p). }
  rewrite !reader_eq, E. unfold embed, tokens, thrown.
  destruct (lines_result (complete_lines (decoded values)) []) as [out [p|x]];
    cbn [fst snd conclude].
  - repeat split; try (destruct e; reflexivity).
    intros s. rewrite handle_line_frame, Hline. now destruct s.
  - repeat split. intros s. rewrite handle_line_frame, Hline. now destruct s.
Qed.

(** ** Records *)

Lemma jsstring_eqb_eq (a b : jsstring) : jsstring_eqb a b = true -> a = b.
Proof.
  unfold jsstring_eqb. now destruct (list_eq_dec Z.eq_dec a b).
Qed.

Lemma carries_inv (r : record_line) :
  carries JSON_parse r = true ->
  no_LF (line r) = true
  /\ nonempty (trim (line r)) = true
  /\ exists obj, JSON_parse (trim (line r)) = Some obj
                 /\ chunk_of obj = JString (fragment r)
                 /\ doneFlag_of obj = done r.
Proof.
  unfold carries. intros H.
  apply andb_prop in H as [H H3]. apply andb_prop in H as [H1 H2].
  split; [exact H1|]. split; [exact H2|].
  destruct (JSON_parse (trim (line r))) as [obj|]; [|discriminate].
  exists obj. apply andb_prop in H3 as [Hc Hd].
  split; [reflexivity|]. split.
  - destruct (chunk_of obj); try discriminate.
    now rewrite (jsstring_eqb_eq _ _ Hc).
  - now apply eqb_prop.
Qed.

(** What a record does: the fragments it makes the reader emit,
    followed by what stays pending, are what was pending followed by
    its fragment; and nothing stays pending after a completion flag. *)
Lemma line_result_record (r : record_line) (p : jsstring) :
  carries JSON_parse r = true ->
  exists out p',
    line_result (line r) p = (out, inl p')
    /\ concat out ++ p' = p ++ fragment r
    /\ (done r = true -> p' = []).
Proof.
  intros H. destruct (carries_inv r H) as (_ & Ht & obj & Hp & Hc & Hd).
  unfold line_result. rewrite handle_line_eq, Ht, Hp, Hc, Hd.
  cbn [negb ToBoolean ToString pending buffer decoder].
  destruct (nonempty (fragment r)) eqn:Hf.
  - cbv zeta. pose proof (split_ws_parts (p ++ fragment r)) as HP.
    set (parts := split_ws (p ++ fragment r)) in *. destruct (done r).
    + eexists _, _. split; [reflexivity|]. split; [|reflexivity].
      rewrite <- HP, app_nil_r, concat_app, concat_filter_nonempty. f_equal.
      destruct (last parts []); cbn; now rewrite ?app_nil_r.
    + eexists _, _. split; [reflexivity|]. split; [|discriminate].
      now rewrite concat_filter_nonempty.
  - destruct (fragment r); [|discriminate]. rewrite app_nil_r.
    destruct (done r).
    + eexists _, _. split; [reflexivity|]. split; [|reflexivity].
      destruct p; cbn; now rewrite ?app_nil_r.
    + eexists _, _. split; [reflexivity|]. split; [reflexivity | discriminate].
Qed.

Lemma lines_result_records (rs : list record_line) (p : jsstring) :
  forallb (carries JSON_parse) rs = true ->
  exists out p',
    lines_result (map line rs) p = (out, inl p')
    /\ concat out ++ p' = p ++ flat_map fragment rs
    /\ (forall rs' r, rs = rs' ++ [r] -> done r = true -> p' = []).
Proof.
  revert p. induction rs as [|r rs IH]; intros p H.
  - exists [], p. cbn. rewrite app_nil_r. repeat split.
    intros rs' r E. now destruct rs'.
  - cbn [forallb] in H. apply andb_prop in H as [Hr Hrs].
    destruct (line_result_record r p Hr) as (out1 & p1 & E1 & C1 & D1).
    destruct (IH p1 Hrs) as (out2 & p2 & E2 & C2 & D2).
    exists (out1 ++ out2), p2. cbn [map lines_result flat_map].
    rewrite E1, E2. split; [reflexivity|]. split.
    + rewrite concat_app, <- app_assoc, C2, !app_assoc. now rewrite C1.
    + intros rs' r' E Hd. destruct rs' as [|r0 rs'].
      * cbn in E. injection E as Er Ers. subst r' rs.
        cbn in E2. injection E2 as _ Ep. subst p2. now apply D1.
      * cbn in E. injection E as _ Ers. now apply (D2 rs' r').
Qed.

(** C2: when the stream decodes to records, each on its line and ended
    by a line feed, carrying the fragments [f1 ... fn], and either the
    last record has the completion flag set (whatever the flags before
    it and however the transport ends after it) or the stream ends,
    the fragments passed to [onToken], concatenated in order, are
    [f1 ++ ... ++ fn]. *)
Theorem order_preservation (values : list bytes) (records : list record_line)
  (e : ending) :
  forallb (carries JSON_parse) records = true ->
  decoded values = ndtext (map line records) ->
  (exists rs r, records = rs ++ [r] /\ done r = true) \/ e = EndOfStream ->
  concat (tokens (reader (streaming values e) initial))
  = flat_map fragment records.
Proof.
  intros Hc Hv He. rewrite reader_eq, Hv.
  assert (forallb no_LF (map line records) = true) as Hn.
  { rewrite forallb_forall in *. intros l Hl. apply in_map_iff in Hl as (r & <- & Hr).
    now destruct (carries_inv r (Hc r Hr)). }
  rewrite <- (app_nil_r (ndtext (map line records))).
  destruct (complete_lines_ndtext _ [] Hn) as [-> ->]. rewrite app_nil_r.
  destruct (lines_result_records records [] Hc) as (out & p & E & C & D).
  rewrite E. unfold embed, tokens. cbn [fst snd conclude app] in *.
  destruct He as [(rs & r & Hr & Hd)| ->].
  - rewrite (D rs r Hr Hd) in *. rewrite app_nil_r in C.
    destruct e; cbn [fst nonempty]; now rewrite ?app_nil_r.
  - cbn [fst]. rewrite concat_app, <- C. f_equal.
    destruct p; cbn; now rewrite ?app_nil_r.
Qed.

End ReaderFacts.

Lemma chunk_boundary_independence_witness :
  ollamaChatStreamWordByWord JSON.parse (streaming [cafe_whole] EndOfStream) initial
  = ollamaChatStreamWordByWord JSON.parse (streaming cafe_cut EndOfStream) initial
  /\ concat (tokens (ollamaChatStreamWordByWord JSON.parse
                       (streaming [cafe_whole] EndOfStream) initial))
     = concat (tokens (ollamaChatStreamWordByWord JSON.parse
                         (streaming cafe_cut EndOfStream) initial)).
Proof.
  apply (chunk_boundary_independence JSON.parse [cafe_whole] cafe_cut EndOfStream).
  vm_compute. reflexivity.
Defined.

Lemma no_stream_body_witness :
  let res := mkResponse true 200 (str "OK") None None in
  ollamaChatStreamWordByWord JSON.parse (Resolved res) initial
  = ([], Throw (Error (str "NO_STREAM_BODY")))
  /\ tokens (ollamaChatStreamWordByWord JSON.parse (Resolved res) initial) = [].
Proof.
  exact (no_stream_body JSON.parse (mkResponse true 200 (str "OK") None None)
           eq_refl eq_refl).
Defined.

(** ** The reader with [JSON.parse] *)

Lemma buffer_holds_no_line_feed_witness :
  exists lines s',
    split_lines bon_jour_end (mkLocals (jstr "{'message':{'cont") [] idle)
    = ([], Normal lines s')
    /\ no_LF (buffer s') = true
    /\ forallb no_LF lines = true
    /\ decoded ([bon_jour_start] ++ [bon_jour_end])
       = ndtext (complete_lines (decoded [bon_jour_start]) ++ lines) ++ buffer s'
    /\ for_of (complete_lines (decoded [bon_jour_start])) (handle_line JSON.parse) initial
       = ([], Normal tt (mkLocals [] (pending (mkLocals (jstr "{'message':{'cont") [] idle))
                           TextDecoder.fresh))
    /\ on_chunk JSON.parse bon_jour_end (mkLocals (jstr "{'message':{'cont") [] idle)
       = for_of lines (handle_line JSON.parse) s'
    /\ (forall out' s'',
          on_chunk JSON.parse bon_jour_end (mkLocals (jstr "{'message':{'cont") [] idle)
          = (out', Normal tt s'') ->
          buffer s'' = buffer s').
Proof.
  apply (buffer_holds_no_line_feed JSON.parse [bon_jour_start] bon_jour_end []
           (mkLocals (jstr "{'message':{'cont") [] idle)).
  vm_compute. reflexivity.
Defined.

Lemma cancellation_discards_pending_witness :
  ollamaChatStreamWordByWord JSON.parse (streaming [ndjson [bon]] Aborted) initial
  = ([], Throw AbortError)
  /\ ollamaChatStreamWordByWord JSON.parse (streaming [ndjson [bon]] EndOfStream) initial
     = ([] ++ [str "Bon"], Normal tt (mkLocals [] (str "Bon") idle))
  /\ isAbortError AbortError = true
  /\ (forall message cause,
        isAbortError TypeError = false
        /\ isAbortError (Error message) = false
        /\ isAbortError (TransportError cause) = false).
Proof.
  apply (cancellation_discards_pending JSON.parse [ndjson [bon]] []
           (mkLocals [] (str "Bon") idle)).
  vm_compute. reflexivity.
Defined.

Lemma unterminated_line_is_dropped_witness :
  tokens (ollamaChatStreamWordByWord JSON.parse
            (streaming ([ndjson [bon]] ++ [json hello_done]) EndOfStream) initial)
  = tokens (ollamaChatStreamWordByWord JSON.parse
              (streaming [ndjson [bon]] EndOfStream) initial)
  /\ thrown (ollamaChatStreamWordByWord JSON.parse
               (streaming ([ndjson [bon]] ++ [json hello_done]) EndOfStream) initial)
     = thrown (ollamaChatStreamWordByWord JSON.parse
                 (streaming [ndjson [bon]] EndOfStream) initial).
Proof.
  apply (unterminated_line_is_dropped JSON.parse [ndjson [bon]] (json hello_done)).
  vm_compute. reflexivity.
Defined.

Lemma malformed_line_is_skipped_witness :
  tokens (ollamaChatStreamWordByWord JSON.parse
            (streaming [ndjson [bon; "{'message':"; jour_done]] EndOfStream) initial)
  = tokens (ollamaChatStreamWordByWord JSON.parse
              (streaming [ndjson [bon; jour_done]] EndOfStream) initial)
  /\ thrown (ollamaChatStreamWordByWord JSON.parse
               (streaming [ndjson [bon; "{'message':"; jour_done]] EndOfStream) initial)
     = thrown (ollamaChatStreamWordByWord JSON.parse
                 (streaming [ndjson [bon; jour_done]] EndOfStream) initial)
  /\ (forall s, handle_line JSON.parse (jstr "{'message':") s = ([], Normal tt s)).
Proof.
  apply (malformed_line_is_skipped JSON.parse
           [ndjson [bon; jour_done]] [ndjson [bon; "{'message':"; jour_done]]
           (jstr bon ++ [LF]) (jstr jour_done ++ [LF]) (jstr "{'message':")
           EndOfStream).
  - vm_compute. reflexivity.
  - vm_compute. reflexivity.
  - vm_compute. reflexivity.
  - vm_compute. reflexivity.
  - right. vm_compute. reflexivity.
Defined.

Lemma order_preservation_witness :
  concat (tokens (ollamaChatStreamWordByWord JSON.parse
                    (streaming [ndjson [bon]; ndjson [jour_done]] Aborted) initial))
  = flat_map fragment [mkRecord (jstr bon) (str "Bon") false;
                       mkRecord (jstr jour_done) (str "jour !") true].
Proof.
  apply (order_preservation JSON.parse [ndjson [bon]; ndjson [jour_done]]
           [mkRecord (jstr bon) (str "Bon") false;
            mkRecord (jstr jour_done) (str "jour !") true] Aborted).
  - vm_compute. reflexivity.
  - vm_compute. reflexivity.
  - left. exists [mkRecord (jstr bon) (str "Bon") false],
                 (mkRecord (jstr jour_done) (str "jour !") true).
    split; reflexivity.
Defined.

(** C7: the fragments [a], two spaces and [b], in three records of
    which the last has the completion flag, however the bytes of the
    records are cut into chunks and however the transport ends after
    them, are passed to [onToken] as they are: the concatenation of the
    emitted fragments is [a], two spaces, [b]. *)
Theorem whitespace_runs_preserved (values : list bytes) (e : ending) :
  concat values = a_spaces_b ->
  tokens (ollamaChatStreamWordByWord JSON.parse (streaming values e) initial)
  = [str "a"; str "  "; str "b"]
  /\ concat (tokens (ollamaChatStreamWordByWord JSON.parse
                       (streaming values e) initial))
     = str "a  b".
Proof.
  intros H. rewrite reader_eq. unfold decoded. rewrite H.
  destruct e; vm_compute; split; reflexivity.
Qed.

Lemma whitespace_runs_preserved_witness :
  let values := [ndjson ["{'message':{'content':'a'},'done':false}"];
                 ndjson ["{'message':{'content':'  '},'done':false}"];
                 ndjson ["{'message':{'content':'b'},'done':true}"]] in
  tokens (ollamaChatStreamWordByWord JSON.parse (streaming values EndOfStream) initial)
  = [str "a"; str "  "; str "b"]
  /\ concat (tokens (ollamaChatStreamWordByWord JSON.parse
                       (streaming values EndOfStream) initial))
     = str "a  b".
Proof.
  apply (whitespace_runs_preserved
           [ndjson ["{'message':{'content':'a'},'done':false}"];
            ndjson ["{'message':{'content':'  '},'done':false}"];
            ndjson ["{'message':{'content':'b'},'done':true}"]] EndOfStream).
  vm_compute. reflexivity.
Defined.

(** C1, at the inputs where the code departs from it: the call does
    not return at a completion flag.  When a record follows the
    completed one, in the next chunk or in the same, it is handled and
    its fragment [x] is passed to [onToken]; when the transport fails
    after the completed record, the call throws the failure, the answer
    being complete and flushed.  The plain reader [ollamaChatStream]
    returns at the flag: on the same streams it passes [hello] alone
    and returns without error.  On the single record alone the
    word-by-word reader does what C1 says of it: one call, with
    [hello], and nothing pending at the return. *)
Theorem completion_record_does_not_end_the_call :
  tokens (ollamaChatStreamWordByWord JSON.parse
            (streaming [ndjson [hello_done]; ndjson [more]] EndOfStream) initial)
  = [str "hello"; str "x"]
  /\ tokens (ollamaChatStreamWordByWord JSON.parse
               (streaming [ndjson [hello_done; more]] EndOfStream) initial)
     = [str "hello"; str "x"]
  /\ ollamaChatStreamWordByWord JSON.parse
       (streaming [ndjson [hello_done]] (Failed (str "network"))) initial
     = ([str "hello"], Throw (TransportError (str "network")))
  /\ ollamaChatStream JSON.parse
       (streaming [ndjson [hello_done]; ndjson [more]] EndOfStream) initial
     = ([str "hello"], Normal tt (mkLocals [] [] idle))
  /\ ollamaChatStream JSON.parse
       (streaming [ndjson [hello_done]] (Failed (str "network"))) initial
     = ([str "hello"], Normal tt (mkLocals [] [] idle))
  /\ ollamaChatStreamWordByWord JSON.parse
       (streaming [ndjson [hello_done]] EndOfStream) initial
     = ([str "hello"], Normal tt (mkLocals [] [] idle)).
Proof.
  repeat split; vm_compute; reflexivity.
Qed.

(** How far the missing return reaches.  When the chunks [before] have
    been read up to the end of a line, with the calls [out] made and
    the variables [s], a record with the completion flag makes the
    reader emit all of [pending s] followed by its fragment, keeping
    nothing, and reading goes on: what follows the record is handled as
    a stream of its own would be, its fragments are emitted after the
    flushed ones, and the call ends as that stream makes it end. *)
Lemma completion_flushes_and_reading_goes_on :
  ollamaChatStreamWordByWord JSON.parse
    (streaming [ndjson [hello_done]] EndOfStream) initial
  = ([str "hello"], Normal tt (mkLocals [] [] idle))
  /\ forall (JSON_parse : jsstring -> option JSValue)
        (before after values : list bytes) (r : record_line) (e : ending)
        (out : list jsstring) (s : locals),
      read_loop JSON_parse before EndOfStream initial = (out, Normal tt s) ->
      buffer s = [] ->
      carries JSON_parse r = true ->
      done r = true ->
      decoded values = decoded before ++ line r ++ LF :: decoded after ->
      exists flushed,
        concat flushed = pending s ++ fragment r
        /\ tokens (ollamaChatStreamWordByWord JSON_parse (streaming values e) initial)
           = out ++ flushed
             ++ tokens (ollamaChatStreamWordByWord JSON_parse (streaming after e) initial)
        /\ thrown (ollamaChatStreamWordByWord JSON_parse (streaming values e) initial)
           = thrown (ollamaChatStreamWordByWord JSON_parse (streaming after e) initial).
Proof.
  split; [vm_compute; reflexivity|].
  intros JSON_parse before after values r e out s Hloop Hb Hr Hd Hv.
  rewrite (read_loop_eq JSON_parse before EndOfStream initial eq_refl) in Hloop.
  cbn [initial buffer pending decoder app] in Hloop.
  unfold decoded in Hv at 2. 
  destruct (TextDecoder.decode TextDecoder.fresh (concat before)) as [d t].
  cbn [snd] in Hv.
  assert (lines_result JSON_parse (complete_lines t) [] = (out, inl (pending s))
          /\ unterminated t = []) as [Ht Hu].
  { unfold embed in Hloop.
    destruct (lines_result JSON_parse (complete_lines t) []) as [o [p|x]];
      cbn [fst snd leave] in Hloop; [|discriminate].
    injection Hloop as -> <-. cbn [buffer pending] in *. now split. }
  destruct (line_result_record JSON_parse r (pending s) Hr)
    as (flushed & p' & Hline & Hc & Hp).
  rewrite (Hp Hd) in *. rewrite app_nil_r in Hc. exists flushed.
  split; [exact Hc|].
  destruct (carries_inv JSON_parse r Hr) as (Hn & _).
  destruct (complete_lines_at_boundary t (line r ++ LF :: decoded after) Hu) as [L U].
  destruct (complete_lines_line (line r) (decoded after) Hn) as [L' U'].
  rewrite !reader_eq, Hv, L, U, L', U', lines_result_app, Ht.
  cbn [lines_result]. rewrite Hline.
  unfold embed, tokens, thrown.
  destruct (lines_result JSON_parse (complete_lines (decoded after)) [])
    as [out' [p|x]]; cbn [fst snd conclude].
  - destruct e; cbn [fst snd]; rewrite <- ?app_assoc; split; reflexivity.
  - split; reflexivity.
Qed.

Lemma completion_flushes_and_reading_goes_on_witness :
  exists flushed,
    concat flushed = str "Bon" ++ str "jour !"
    /\ tokens (ollamaChatStreamWordByWord JSON.parse
                 (streaming [ndjson [bon; jour_done; more]] EndOfStream) initial)
       = [] ++ flushed
         ++ tokens (ollamaChatStreamWordByWord JSON.parse
                      (streaming [ndjson [more]] EndOfStream) initial)
    /\ thrown (ollamaChatStreamWordByWord JSON.parse
                 (streaming [ndjson [bon; jour_done; more]] EndOfStream) initial)
       = thrown (ollamaChatStreamWordByWord JSON.parse
                   (streaming [ndjson [more]] EndOfStream) initial).
Proof.
  apply (proj2 completion_flushes_and_reading_goes_on JSON.parse
           [ndjson [bon]] [ndjson [more]] [ndjson [bon; jour_done; more]]
           (mkRecord (jstr jour_done) (str "jour !") true) EndOfStream
           [] (mkLocals [] (str "Bon") idle)).
  - vm_compute. reflexivity.
  - reflexivity.
  - vm_compute. reflexivity.
  - reflexivity.
  - vm_compute. reflexivity.
Defined.

(** * The plain reader *)
Section PlainReaderFacts.

Variable JSON_parse : jsstring -> option JSValue.

Local Abbreviation chat_line := (chat_line JSON_parse).
Local Abbreviation chat_lines := (chat_lines JSON_parse).
Local Abbreviation chat_loop := (chat_loop JSON_parse).
Local Abbreviation chat := (ollamaChatStream JSON_parse).

(** A line never throws and leaves the variables as they are. *)
Lemma chat_line_pure (l : jsstring) :
  exists out r, forall s, chat_line l s = (out, Normal r s).
Proof.
  unfold chat_line.
  destruct (negb (nonempty (trim l))); [now eexists _, _|].
  destruct (JSON_parse (trim l)) as [obj|]; [|now eexists _, _].
  destruct (optional_get _ (str "content")) as [v|]; [|now eexists _, _].
  destruct (ToBoolean (Some v)); [|now eexists _, _].
  destruct (ToString v); now eexists _, _.
Qed.

Lemma chat_line_eq (l : jsstring) (s : locals) :
  chat_line l s = (fst (chat_lines [l]), Normal (snd (chat_lines [l])) s).
Proof.
  destruct (chat_line_pure l) as (out & r & H).
  unfold chat_lines. cbn [for_of_return]. unfold bind.
  rewrite !H. destruct r; unfold ret; cbn [fst snd]; now rewrite app_nil_r.
Qed.

Lemma for_of_return_eq (ls : list jsstring) (s : locals) :
  for_of_return ls chat_line s
  = (fst (chat_lines ls), Normal (snd (chat_lines ls)) s).
Proof.
  unfold chat_lines.
  induction ls as [|l ls IH]; [reflexivity|].
  cbn [for_of_return]. unfold bind. rewrite !chat_line_eq.
  destruct (snd (chat_lines [l])); [reflexivity|].
  rewrite IH. destruct (for_of_return ls chat_line initial) as [out [r s'|x]];
    reflexivity.
Qed.

Lemma chat_lines_cons (l : jsstring) (ls : list jsstring) :
  chat_lines (l :: ls) =
  if snd (chat_lines [l]) then (fst (chat_lines [l]), true)
  else (fst (chat_lines [l]) ++ fst (chat_lines ls), snd (chat_lines ls)).
Proof.
  unfold chat_lines at 1. cbn [for_of_return]. unfold bind.
  rewrite chat_line_eq.
  destruct (snd (chat_lines [l])); [unfold ret; now rewrite app_nil_r|].
  now rewrite for_of_return_eq.
Qed.

Lemma chat_lines_app (ls ls' : list jsstring) :
  chat_lines (ls ++ ls') =
  if snd (chat_lines ls) then (fst (chat_lines ls), true)
  else (fst (chat_lines ls) ++ fst (chat_lines ls'), snd (chat_lines ls')).
Proof.
  induction ls as [|l ls IH]; cbn [app].
  - now destruct (chat_lines ls').
  - rewrite (chat_lines_cons l (ls ++ ls')), (chat_lines_cons l ls), IH.
    destruct (snd (chat_lines [l])); [reflexivity|]. cbn [fst snd].
    destruct (snd (chat_lines ls)); cbn [fst snd]; now rewrite ?app_assoc.
Qed.

Lemma chat_loop_cons (value : bytes) (values : list bytes) (e : ending)
  (s : locals) :
  chat_loop (value :: values) e s =
  let (d, t) := TextDecoder.decode (decoder s) value in
  let r := chat_lines (complete_lines (buffer s ++ t)) in
  let s1 := mkLocals (unterminated (buffer s ++ t)) (pending s) d in
  if snd r then (fst r, Normal tt s1)
  else let (out, c) := chat_loop values e s1 in (fst r ++ out, c).
Proof.
  cbn [chat_loop]. unfold bind at 1. rewrite split_lines_eq.
  destruct (TextDecoder.decode (decoder s) value) as [d t].
  unfold bind at 1. rewrite for_of_return_eq. cbv zeta.
  destruct (snd (chat_lines (complete_lines (buffer s ++ t)))).
  - unfold ret. cbn [app]. now rewrite app_nil_r.
  - destruct (chat_loop values e _) as [out c]. reflexivity.
Qed.

(** How a stream may end when no line has made the reader return. *)
Lemma chat_loop_eq (values : list bytes) (e : ending) (s : locals) :
  no_LF (buffer s) = true ->
  let r := chat_lines (complete_lines
                         (buffer s ++ snd (TextDecoder.decode (decoder s)
                                             (concat values)))) in
  tokens (chat_loop values e s) = fst r
  /\ thrown (chat_loop values e s)
     = if snd r then None else thrown (leave e ([], Normal tt s)).
Proof.
  revert s. induction values as [|value values IH]; intros s Hb.
  - cbn [concat TextDecoder.decode chat_loop snd]. rewrite app_nil_r.
    destruct (complete_lines_whole _ Hb) as [-> _].
    destruct e; split; reflexivity.
  - rewrite chat_loop_cons. cbn [concat]. rewrite decode_app.
    destruct (TextDecoder.decode (decoder s) value) as [d1 t1].
    destruct (TextDecoder.decode d1 (concat values)) as [d2 t2] eqn:E2.
    cbv zeta. cbn [snd].
    rewrite (app_assoc (buffer s) t1 t2), (complete_lines_app (buffer s ++ t1) t2),
      chat_lines_app.
    destruct (snd (chat_lines (complete_lines (buffer s ++ t1)))).
    + split; reflexivity.
    + set (s1 := mkLocals (unterminated (buffer s ++ t1)) (pending s) d1).
      destruct (IH s1 (unterminated_no_LF _)) as [Ht Hx]. cbv zeta in Ht, Hx.
      subst s1. cbn [buffer decoder] in Ht, Hx. rewrite E2 in Ht, Hx.
      cbn [snd fst] in *. unfold tokens, thrown in *.
      destruct (chat_loop values e _) as [out c]. cbn [fst snd] in *.
      rewrite Ht, Hx. split; [reflexivity|]. now destruct e.
Qed.

Lemma chat_eq (values : list bytes) (e : ending) :
  let r := chat_lines (complete_lines (decoded values)) in
  tokens (chat (streaming values e) initial) = fst r
  /\ thrown (chat (streaming values e) initial)
     = if snd r then None else thrown (leave e ([], Normal tt initial)).
Proof.
  unfold ollamaChatStream, streaming, decoded. cbn [ok body chunks finish negb].
  exact (chat_loop_eq values e initial eq_refl).
Qed.

(** X1: the plain reader, too, sees the stream as one text: however
    the bytes are cut into chunks, it makes the same calls to
    [onToken] and ends the same way. *)
Theorem plain_chunk_boundary_independence (values values' : list bytes)
  (e : ending) :
  concat values = concat values' ->
  tokens (chat (streaming values e) initial)
  = tokens (chat (streaming values' e) initial)
  /\ thrown (chat (streaming values e) initial)
     = thrown (chat (streaming values' e) initial).
Proof.
  intros H. destruct (chat_eq values e) as [T X], (chat_eq values' e) as [T' X'].
  cbn zeta in *. unfold decoded in *. rewrite H in *.
  split; congruence.
Qed.

(** X2: nothing in the content of the stream makes the plain reader
    throw: a line that is not JSON and a content that [String] cannot
    convert are caught alike.  The call returns, or throws what the
    transport threw. *)
Theorem plain_reader_throws_transport_errors_only (values : list bytes)
  (e : ending) :
  thrown (chat (streaming values e) initial) = None
  \/ thrown (chat (streaming values e) initial)
     = match e with
       | EndOfStream => None
       | Aborted => Some AbortError
       | Failed cause => Some (TransportError cause)
       end.
Proof.
  destruct (chat_eq values e) as [_ X]. cbv zeta in X. rewrite X.
  destruct (snd (chat_lines _)); [now left|]. right. now destruct e.
Qed.

Lemma completes_stops (ls : list jsstring) :
  existsb (completes JSON_parse) ls = true -> snd (chat_lines ls) = true.
Proof.
  induction ls as [|l ls IH]; [discriminate|].
  cbn [existsb]. unfold completes at 1. intros H.
  rewrite (chat_lines_cons l ls).
  destruct (snd (chat_lines [l])); [reflexivity|]. cbn [orb snd] in *. now apply IH.
Qed.

(** X3: once a line that completes the answer has been read in full,
    the plain reader has returned: chunks that come after it are not
    read, and however the transport ends, the call makes the same
    calls to [onToken] and returns without error. *)
Theorem completion_ends_plain_reader (values more : list bytes) (e e' : ending) :
  existsb (completes JSON_parse) (complete_lines (decoded values)) = true ->
  tokens (chat (streaming (values ++ more) e') initial)
  = tokens (chat (streaming values e) initial)
  /\ thrown (chat (streaming (values ++ more) e') initial) = None
  /\ thrown (chat (streaming values e) initial) = None.
Proof.
  intros H. apply completes_stops in H.
  assert (chat_lines (complete_lines (decoded (values ++ more)))
          = (fst (chat_lines (complete_lines (decoded values))), true)) as E.
  { unfold decoded in *. rewrite concat_app, decode_app.
    destruct (TextDecoder.decode TextDecoder.fresh (concat values)) as [d t].
    destruct (TextDecoder.decode d (concat more)) as [d' t'].
    cbn [snd] in *.
    now rewrite complete_lines_app, chat_lines_app, H. }
  destruct (chat_eq values e) as [T X], (chat_eq (values ++ more) e') as [T' X'].
  cbv zeta in *. rewrite T, T', X, X', H, E. repeat split.
Qed.

Lemma chat_lines_single (l : jsstring) :
  chat_lines [l] =
  match chat_line l initial with
  | (out, Normal r _) => (out, r)
  | (out, Throw _) => (out, false)
  end.
Proof.
  destruct (chat_line_pure l) as (out & r & H).
  unfold chat_lines. cbn [for_of_return]. unfold bind. rewrite H.
  destruct r; unfold ret; now rewrite app_nil_r.
Qed.

Lemma chat_lines_record (r : record_line) :
  carries JSON_parse r = true ->
  chat_lines [line r]
  = (if nonempty (fragment r) then [fragment r] else [], done r).
Proof.
  intros H. destruct (carries_inv JSON_parse r H) as (_ & Ht & obj & Hp & Hc & Hd).
  rewrite chat_lines_single. unfold chat_line. rewrite Ht, Hp. cbn [negb].
  unfold chunk_of, doneFlag_of in *. rewrite Hd.
  destruct (optional_get _ (str "content")) as [v|].
  - destruct v; cbn [nullish_or] in Hc; try discriminate.
    + injection Hc as <-. reflexivity.
    + injection Hc as ->. cbn [ToBoolean ToString].
      destruct (nonempty (fragment r)); reflexivity.
  - cbn [nullish_or] in Hc. injection Hc as <-. reflexivity.
Qed.

Lemma chat_lines_records (rs : list record_line) :
  forallb (carries JSON_parse) rs = true ->
  forallb (fun r => negb (done r)) (removelast rs) = true ->
  chat_lines (map line rs) = (filter nonempty (map fragment rs),
                              match rs with [] => false | _ => done (last rs (mkRecord [] [] false)) end).
Proof.
  induction rs as [|r rs IH]; intros Hc Hd; [reflexivity|].
  cbn [forallb] in Hc. apply andb_prop in Hc as [Hr Hrs].
  cbn [map]. rewrite (chat_lines_cons (line r) (map line rs)), (chat_lines_record r Hr).
  cbn [fst snd filter].
  destruct rs as [|r' rs].
  - cbn. destruct (nonempty (fragment r)), (done r); cbn; reflexivity.
  - change (removelast (r :: r' :: rs)) with (r :: removelast (r' :: rs)) in Hd.
    cbn [forallb] in Hd. apply andb_prop in Hd as [Hd Hds].
    apply negb_true_iff in Hd. rewrite Hd, (IH Hrs Hds). cbn [fst snd].
    change (last (r :: r' :: rs) (mkRecord [] [] false))
      with (last (r' :: rs) (mkRecord [] [] false)).
    destruct (nonempty (fragment r)); reflexivity.
Qed.

Lemma plain_reader_tokens_aux (values : list bytes) (records : list record_line)
  (e : ending) :
  forallb (carries JSON_parse) records = true ->
  forallb (fun r => negb (done r)) (removelast records) = true ->
  decoded values = ndtext (map line records) ->
  tokens (chat (streaming values e) initial)
  = filter nonempty (map fragment records).
Proof.
  intros Hc Hd Hv. destruct (chat_eq values e) as [T _]. cbv zeta in T.
  rewrite T, Hv.
  assert (forallb no_LF (map line records) = true) as Hn.
  { rewrite forallb_forall in *. intros l Hl. apply in_map_iff in Hl as (r & <- & Hr).
    now destruct (carries_inv JSON_parse r (Hc r Hr)). }
  rewrite <- (app_nil_r (ndtext (map line records))).
  destruct (complete_lines_ndtext _ [] Hn) as [-> _]. rewrite app_nil_r.
  now rewrite (chat_lines_records records Hc Hd).
Qed.

(** X4: on records that carry the fragments [f1 ... fn], none before
    the last with the completion flag, the plain reader passes to
    [onToken] exactly the fragments that are not empty, in order, and
    when the stream ends after them it returns without error. *)
Theorem plain_reader_tokens (values : list bytes) (records : list record_line) :
  forallb (carries JSON_parse) records = true ->
  forallb (fun r => negb (done r)) (removelast records) = true ->
  decoded values = ndtext (map line records) ->
  tokens (chat (streaming values EndOfStream) initial)
  = filter nonempty (map fragment records)
  /\ thrown (chat (streaming values EndOfStream) initial) = None.
Proof.
  intros Hc Hd Hv. split; [now apply plain_reader_tokens_aux|].
  destruct (chat_eq values EndOfStream) as [_ X]. cbv zeta in X. rewrite X.
  now destruct (snd (chat_lines _)).
Qed.

(** X5: the two readers deliver the same text.  On records that carry
    text fragments, none before the last with the completion flag, and
    when the last one has it or the stream ends, what the word-by-word
    reader passes to [onToken], put together, is what the plain reader
    passes to it, put together. *)
Theorem readers_agree (values : list bytes) (records : list record_line)
  (e : ending) :
  forallb (carries JSON_parse) records = true ->
  forallb (fun r => negb (done r)) (removelast records) = true ->
  decoded values = ndtext (map line records) ->
  (exists rs r, records = rs ++ [r] /\ done r = true) \/ e = EndOfStream ->
  concat (tokens (ollamaChatStreamWordByWord JSON_parse (streaming values e) initial))
  = concat (tokens (chat (streaming values e) initial)).
Proof.
  intros Hc Hd Hv He.
  rewrite (plain_reader_tokens_aux values records e Hc Hd Hv).
  rewrite concat_filter_nonempty, <- flat_map_concat_map.
  rewrite reader_eq, Hv.
  assert (forallb no_LF (map line records) = true) as Hn.
  { rewrite forallb_forall in *. intros l Hl. apply in_map_iff in Hl as (r & <- & Hr).
    now destruct (carries_inv JSON_parse r (Hc r Hr)). }
  rewrite <- (app_nil_r (ndtext (map line records))).
  destruct (complete_lines_ndtext _ [] Hn) as [-> ->]. rewrite app_nil_r.
  destruct (lines_result_records JSON_parse records [] Hc) as (out & p & E & C & D).
  rewrite E. unfold embed, tokens. cbn [fst snd conclude app] in *.
  destruct He as [(rs & r & Hr & Hdr)| ->].
  - rewrite (D rs r Hr Hdr) in *. rewrite app_nil_r in C.
    destruct e; cbn [fst nonempty]; now rewrite ?app_nil_r.
  - cbn [fst]. rewrite concat_app, <- C. f_equal.
    destruct p; cbn; now rewrite ?app_nil_r.
Qed.

End PlainReaderFacts.

(** * Words *)

Lemma all_kind_cons (ws : bool) (c : Z) (t : jsstring) :
  all_kind ws (c :: t) = Bool.eqb (isWhiteSpace c) ws && all_kind ws t.
Proof. reflexivity. Qed.

Lemma is_run_of_kind (ws : bool) (t : jsstring) :
  all_kind ws t = true -> is_run t = true.
Proof.
  unfold is_run. intros H. destruct ws; rewrite H; [reflexivity | apply orb_true_r].
Qed.

(** The pieces of [split_runs] are runs, the first of the kind asked
    for, the last without white space. *)
Lemma split_runs_kinds (s : jsstring) :
  forall ws, exists h t,
    split_runs ws s = h :: t
    /\ all_kind ws h = true
    /\ forallb is_run t = true
    /\ all_kind false (last (h :: t) []) = true
    /\ (ws = true -> t <> []).
Proof.
  induction s as [|c s IH]; intros ws.
  - destruct ws; cbn; eexists _, _; repeat split; discriminate.
  - cbn [split_runs]. destruct (Bool.eqb (isWhiteSpace c) ws) eqn:Ec.
    + destruct (IH ws) as (h & t & E & Kh & Rt & Kl & Nt). rewrite E.
      exists (c :: h), t. cbn [cons_head]. repeat split; trivial.
      * now rewrite all_kind_cons, Ec, Kh.
      * destruct t as [|h' t]; [|exact Kl].
        cbn [last] in *. destruct ws; [now destruct Nt|].
        now rewrite all_kind_cons, Ec, Kl.
    + destruct (IH (negb ws)) as (h & t & E & Kh & Rt & Kl & Nt). rewrite E.
      exists [], (cons_head c (h :: t)). cbn [cons_head].
      assert (Bool.eqb (isWhiteSpace c) (negb ws) = true) as Ec'
        by (destruct (isWhiteSpace c), ws; cbn in *; congruence).
      assert (all_kind (negb ws) (c :: h) = true) as Kc
        by now rewrite all_kind_cons, Ec', Kh.
      repeat split; try discriminate.
      * cbn [forallb]. now rewrite (is_run_of_kind _ _ Kc), Rt.
      * destruct t as [|h' t]; [|exact Kl].
        cbn [last] in *. destruct ws; [exact Kc|]. now destruct Nt.
Qed.

Lemma split_ws_runs (s : jsstring) :
  forallb is_run (removelast (split_ws s)) = true
  /\ all_kind false (last (split_ws s) []) = true.
Proof.
  unfold split_ws. destruct (split_runs_kinds s false) as (h & t & E & Kh & Rt & Kl & _).
  rewrite E. split; [|exact Kl].
  assert (forallb is_run (h :: t) = true) as Hall
    by (cbn; now rewrite (is_run_of_kind _ _ Kh), Rt).
  rewrite (app_removelast_last [] (l:=h :: t)) in Hall by discriminate.
  rewrite forallb_app in Hall. now apply andb_prop in Hall.
Qed.

Lemma forallb_filter_run (l : list jsstring) :
  forallb is_run l = true -> forallb is_run (filter nonempty l) = true.
Proof.
  induction l as [|x l IH]; [reflexivity|]. cbn [forallb filter]. intros H.
  apply andb_prop in H as [Hx Hl]. destruct (nonempty x); cbn [forallb];
    now rewrite ?Hx, IH.
Qed.

(** A white space of a text whose end holds none lies before that
    end. *)
Lemma white_space_is_emitted (o p a b : jsstring) (c : Z) :
  all_kind false p = true ->
  o ++ p = a ++ c :: b ->
  isWhiteSpace c = true ->
  exists following, o = a ++ c :: following.
Proof.
  intros Hp E Hc. revert o E. induction a as [|y a IH]; intros [|x o] E.
  - cbn in E. subst p. rewrite all_kind_cons, Hc in Hp. discriminate.
  - cbn in E. injection E as -> _. now exists o.
  - cbn [app] in E. subst p. unfold all_kind in Hp.
    change (y :: a ++ c :: b) with ((y :: a) ++ c :: b) in Hp.
    rewrite forallb_app in Hp. apply andb_prop in Hp as [_ Hp].
    cbn [forallb] in Hp. rewrite Hc in Hp. discriminate.
  - cbn [app] in E. injection E as -> E. destruct (IH o E) as [f ->]. now exists f.
Qed.

Section WordFacts.

Variable JSON_parse : jsstring -> option JSValue.

Local Abbreviation reader := (ollamaChatStreamWordByWord JSON_parse).

(** What is pending is never white space, and what is emitted is a
    run. *)
Lemma line_result_runs (l p : jsstring) :
  all_kind false p = true ->
  forallb is_run (fst (line_result JSON_parse l p)) = true
  /\ match snd (line_result JSON_parse l p) with
     | inl p' => all_kind false p' = true
     | inr _ => True
     end.
Proof.
  intros Hp. unfold line_result. rewrite handle_line_eq.
  cbn [pending buffer decoder].
  destruct (negb (nonempty (trim l))); [now split|].
  destruct (JSON_parse (trim l)) as [obj|]; [|now split].
  destruct (ToBoolean (Some (chunk_of obj))).
  - destruct (ToString (chunk_of obj)) as [addend|x]; [|now split].
    cbv zeta. destruct (split_ws_runs (p ++ addend)) as [Hr Hl].
    destruct (doneFlag_of obj); cbn [fst snd pending].
    + split; [|reflexivity]. rewrite forallb_app, (forallb_filter_run _ Hr).
      destruct (nonempty (last (split_ws (p ++ addend)) [])); [|reflexivity].
      cbn [forallb]. now rewrite (is_run_of_kind _ _ Hl).
    + split; [now apply forallb_filter_run | exact Hl].
  - destruct (doneFlag_of obj); cbn [fst snd pending]; [|now split].
    split; [|reflexivity]. destruct (nonempty p); [|reflexivity].
    cbn [forallb]. now rewrite (is_run_of_kind _ _ Hp).
Qed.

Lemma lines_result_runs (ls : list jsstring) (p : jsstring) :
  all_kind false p = true ->
  forallb is_run (fst (lines_result JSON_parse ls p)) = true
  /\ match snd (lines_result JSON_parse ls p) with
     | inl p' => all_kind false p' = true
     | inr _ => True
     end.
Proof.
  revert p. induction ls as [|l ls IH]; intros p Hp; [now split|].
  cbn [lines_result]. destruct (line_result_runs l p Hp) as [Hr Hs].
  destruct (line_result JSON_parse l p) as [out [p'|x]]; cbn [fst snd] in *;
    [|now split].
  destruct (IH p' Hs) as [Hr' Hs'].
  destruct (lines_result JSON_parse ls p') as [out' r]. cbn [fst snd] in *.
  split; [|exact Hs']. now rewrite forallb_app, Hr, Hr'.
Qed.

(** X6: word by word.  Every string the word-by-word reader passes to
    [onToken] is a run of white space or a run without any white
    space, never a mix, whatever the stream holds and however it
    ends. *)
Theorem tokens_are_runs (values : list bytes) (e : ending) :
  forallb is_run (tokens (reader (streaming values e) initial)) = true.
Proof.
  rewrite reader_eq. unfold embed, tokens.
  destruct (lines_result_runs (complete_lines (decoded values)) [] eq_refl)
    as [Hr Hs].
  destruct (lines_result JSON_parse (complete_lines (decoded values)) [])
    as [out [p|x]]; cbn [fst snd conclude] in *; [|exact Hr].
  destruct e; cbn [fst pending]; try exact Hr.
  rewrite forallb_app, Hr. destruct (nonempty p); [|reflexivity].
  cbn [forallb]. now rewrite (is_run_of_kind _ _ Hs).
Qed.

(** The state of the loop when the chunks read end at the end of a
    line. *)
Lemma read_loop_initial_inv (before : list bytes) (out : list jsstring)
  (s : locals) :
  read_loop JSON_parse before EndOfStream initial = (out, Normal tt s) ->
  lines_result JSON_parse (complete_lines (decoded before)) []
  = (out, inl (pending s))
  /\ unterminated (decoded before) = buffer s.
Proof.
  intros H. rewrite (read_loop_eq JSON_parse before EndOfStream initial eq_refl) in H.
  cbn [initial buffer pending decoder app] in H. unfold decoded.
  destruct (TextDecoder.decode TextDecoder.fresh (concat before)) as [d t].
  cbn [snd]. unfold embed in H.
  destruct (lines_result JSON_parse (complete_lines t) []) as [o [p|x]];
    cbn [fst snd leave] in H; [|discriminate].
  injection H as -> <-. now split.
Qed.

(** X7: a line of valid JSON can end the call with an exception.  When
    [message.content] is a value that cannot be converted to a string
    (an object that owns [toString]), the word-by-word reader throws
    the [TypeError] at that line: it makes the calls made before and no
    other, drops what was pending, and reads nothing after, however
    the transport ends. *)
Theorem conversion_failure_ends_the_call (before values : list bytes)
  (l following : jsstring) (obj : JSValue) (x : exn) (e : ending)
  (out : list jsstring) (s : locals) :
  read_loop JSON_parse before EndOfStream initial = (out, Normal tt s) ->
  buffer s = [] ->
  decoded values = decoded before ++ l ++ LF :: following ->
  no_LF l = true ->
  nonempty (trim l) = true ->
  JSON_parse (trim l) = Some obj ->
  ToBoolean (Some (chunk_of obj)) = true ->
  ToString (chunk_of obj) = inr x ->
  reader (streaming values e) initial = (out, Throw x).
Proof.
  intros Hloop Hb Hv Hn Ht Hp Hc Hx.
  destruct (read_loop_initial_inv before out s Hloop) as [Hbefore Hu].
  rewrite Hb in Hu.
  destruct (complete_lines_at_boundary _ (l ++ LF :: following) Hu) as [L _].
  destruct (complete_lines_line l following Hn) as [L' _].
  rewrite reader_eq, Hv, L, L', lines_result_app, Hbefore.
  cbn [lines_result]. unfold line_result. rewrite handle_line_eq, Ht, Hp, Hc, Hx.
  cbn [negb]. unfold embed. cbn [fst snd conclude]. now rewrite app_nil_r.
Qed.

(** X18: what the word-by-word reader holds back is never more than
    the start of a word.  On a stream of records that carry text
    fragments, each on its line, followed or not by the start of a
    line, whenever the reader awaits the next chunk it has made calls
    to [onToken] and holds a [pending] such that [pending] holds no
    white space and the strings passed, put together and followed by
    [pending], are the fragments received, put together.  So all the
    text up to the last white space received has been passed to
    [onToken]: every white space of the fragments, with all that comes
    before it, is in what has been passed. *)
Theorem pending_holds_no_white_space (values : list bytes)
  (records : list record_line) (rest : jsstring) :
  forallb (carries JSON_parse) records = true ->
  decoded values = ndtext (map line records) ++ rest ->
  no_LF rest = true ->
  exists out s,
    read_loop JSON_parse values EndOfStream initial = (out, Normal tt s)
    /\ all_kind false (pending s) = true
    /\ concat out ++ pending s = flat_map fragment records
    /\ (forall a c b,
          flat_map fragment records = a ++ c :: b ->
          isWhiteSpace c = true ->
          exists following, concat out = a ++ c :: following).
Proof.
  intros Hc Hv Hrest.
  assert (forallb no_LF (map line records) = true) as Hn.
  { rewrite forallb_forall in *. intros l Hl. apply in_map_iff in Hl as (r & <- & Hr).
    now destruct (carries_inv JSON_parse r (Hc r Hr)). }
  destruct (complete_lines_ndtext _ rest Hn) as [L U].
  destruct (complete_lines_whole rest Hrest) as [L' U'].
  rewrite L', app_nil_r in L. rewrite U' in U.
  destruct (lines_result_records JSON_parse records [] Hc) as (out & p & E & C & _).
  destruct (lines_result_runs (map line records) [] eq_refl) as [_ Hs].
  rewrite E in Hs. cbn [snd app] in *.
  rewrite (read_loop_eq JSON_parse values EndOfStream initial eq_refl).
  cbn [initial buffer pending decoder app]. unfold decoded in Hv.
  destruct (TextDecoder.decode TextDecoder.fresh (concat values)) as [d t].
  cbn [snd] in Hv. rewrite Hv, L, U, E. unfold embed. cbn [fst snd leave].
  eexists _, _. split; [reflexivity|]. cbn [pending].
  split; [exact Hs|]. split; [exact C|].
  intros a c b Ht Hw. rewrite <- C in Ht.
  now apply (white_space_is_emitted (concat out) p a b c).
Qed.

End WordFacts.

Lemma pending_holds_no_white_space_witness :
  exists out s,
    read_loop JSON.parse [bon_jour_start; bon_jour_end] EndOfStream initial
    = (out, Normal tt s)
    /\ all_kind false (pending s) = true
    /\ concat out ++ pending s
       = flat_map fragment [mkRecord (jstr bon_jour) (str "Bon jour") false]
    /\ (forall a c b,
          flat_map fragment [mkRecord (jstr bon_jour) (str "Bon jour") false]
          = a ++ c :: b ->
          isWhiteSpace c = true ->
          exists following, concat out = a ++ c :: following).
Proof.
  apply (pending_holds_no_white_space JSON.parse [bon_jour_start; bon_jour_end]
           [mkRecord (jstr bon_jour) (str "Bon jour") false] (jstr "{'mess"));
    vm_compute; reflexivity.
Defined.

(** * The backend helper [safeStr] *)

Lemma slice0_length (s : jsstring) (max : Z) :
  0 <= max -> Z.of_nat (length (slice0 s max)) <= max.
Proof.
  intros H. unfold slice0. destruct (max <? 0) eqn:E; [lia|].
  rewrite length_firstn. lia.
Qed.

Lemma slice0_prefix (s : jsstring) (max : Z) :
  exists rest, s = slice0 s max ++ rest.
Proof.
  unfold slice0. eexists. symmetry. apply firstn_skipn.
Qed.

Lemma safeStr_within (v : option JSValue) (max : Z) (s : jsstring) :
  0 <= max -> safeStr v max = inl s -> Z.of_nat (length s) <= max.
Proof.
  intros Hmax H. unfold safeStr in H.
  destruct (ToString (nullish_or v (JString []))) as [t|x]; [|discriminate].
  injection H as <-.
  destruct (max <? Z.of_nat (length (trim t))) eqn:E; [now apply slice0_length | lia].
Qed.

(** X8: [safeStr] keeps its bound.  For a bound that is not negative,
    the string it returns, when it returns one, has at most [max] code
    units. *)
Theorem safeStr_length (v : option JSValue) (max : Z) (s : jsstring) :
  0 <= max ->
  safeStr v max = inl s ->
  Z.of_nat (length s) <= max.
Proof.
  intros Hmax H. now apply (safeStr_within v).
Qed.

(** X9: what [safeStr] returns is the start of the trimmed string of
    the value, and all of it when it fits the bound; it fails only
    when the conversion of the value to a string does. *)
Theorem safeStr_prefix (v : option JSValue) (max : Z) :
  match ToString (nullish_or v (JString [])) with
  | inl t =>
      exists s rest,
        safeStr v max = inl s
        /\ trim t = s ++ rest
        /\ (Z.of_nat (length (trim t)) <= max -> rest = [])
  | inr x => safeStr v max = inr x
  end.
Proof.
  unfold safeStr.
  destruct (ToString (nullish_or v (JString []))) as [t|x]; [|reflexivity].
  destruct (max <? Z.of_nat (length (trim t))) eqn:E.
  - destruct (slice0_prefix (trim t) max) as [rest Hr].
    exists (slice0 (trim t) max), rest. repeat split; [exact Hr | lia].
  - exists (trim t), []. repeat split. now rewrite app_nil_r.
Qed.

Lemma safeStr_length_witness :
  Z.of_nat (length (str "Maroc")) <= 5.
Proof.
  apply (safeStr_length (Some (JString (str "  Maroc - Espagne  "))) 5 (str "Maroc")).
  - lia.
  - vm_compute. reflexivity.
Defined.

(** * The payment intent *)

Lemma asIntCents_positive (v : option JSValue) (i : Z) :
  asIntCents v = inl (Some i) -> 1 <= i.
Proof.
  unfold asIntCents. destruct (ToNumber v) as [n|e]; [|discriminate].
  destruct (negb (isFinite n)); [discriminate|].
  destruct (Z.leb_spec (match n with Some x => Math_round x | None => 0 end) 0);
    [discriminate|].
  intros [= <-]. lia.
Qed.

Lemma and_then_inl {A B : Type} (x : A + exn) (k : A -> B + exn) (b : B) :
  and_then x k = inl b -> exists a, x = inl a /\ k a = inl b.
Proof.
  destruct x as [a|e]; [|discriminate]. intros H. now exists a.
Qed.

(** X20: Stripe is asked for nothing out of bounds.  Whatever the body
    of the request, when the server asks Stripe to create a payment
    intent, the secret key is set, the amount is a whole number of at
    least one cent, the currency is the lower case of a string of at
    most ten code units, each metadata value is within its bound, and
    the receipt address, when there is one, is the customer's address
    and is not empty. *)
Theorem stripe_is_asked_within_bounds (toLowerCase : jsstring -> jsstring)
  (key : bool) (body : option JSValue) (params : PaymentIntentParams) :
  create_intent toLowerCase key body = Create params ->
  key = true
  /\ 1 <= amount params
  /\ (exists c, Z.of_nat (length c) <= 10 /\ currency params = toLowerCase c)
  /\ Forall2 within (metadata params) metadata_bounds
  /\ (forall e, receipt_email params = Some e ->
        e <> [] /\ In (str "customerEmail", e) (metadata params)).
Proof.
  unfold create_intent. destruct key; [|discriminate]. cbn [negb].
  destruct (create_intent_params toLowerCase body) as [[p|]|x] eqn:E; try discriminate.
  intros [= <-]. split; [reflexivity|].
  unfold create_intent_params in E.
  apply and_then_inl in E as (a & Ha & E).
  apply and_then_inl in E as (c & Hc & E).
  destruct a as [a|]; [|discriminate].
  apply and_then_inl in E as (m1 & H1 & E).
  apply and_then_inl in E as (m2 & H2 & E).
  apply and_then_inl in E as (m3 & H3 & E).
  apply and_then_inl in E as (m4 & H4 & E).
  apply and_then_inl in E as (m5 & H5 & E).
  apply and_then_inl in E as (m6 & H6 & E).
  apply and_then_inl in E as (m7 & H7 & E).
  apply and_then_inl in E as (m8 & H8 & E).
  injection E as <-. cbn [amount currency metadata receipt_email].
  split; [now apply (asIntCents_positive _ _ Ha)|].
  split; [exists c; split; [now apply (safeStr_within _ 10 _ ltac:(lia) Hc) | reflexivity]|].
  split.
  - unfold metadata_bounds, within.
    repeat (constructor; [split; [reflexivity|]; cbn [snd];
                          eapply safeStr_within; [|eassumption]; lia|]).
    constructor.
  - intros e He. destruct m8 as [|d m8]; [discriminate|].
    cbn [nonempty] in He. injection He as <-. split; [discriminate|].
    cbn [In]. do 7 right. now left.
Qed.

Lemma stripe_is_asked_within_bounds_witness :
  true = true
  /\ 1 <= amount sample_params
  /\ (exists c, Z.of_nat (length c) <= 10 /\ currency sample_params = ascii_lower c)
  /\ Forall2 within (metadata sample_params) metadata_bounds
  /\ (forall e, receipt_email sample_params = Some e ->
        e <> [] /\ In (str "customerEmail", e) (metadata sample_params)).
Proof.
  apply (stripe_is_asked_within_bounds ascii_lower true
           (JSON.parse (jstr sample_body)) sample_params).
  vm_compute. reflexivity.
Defined.

(** * Routing *)

Lemma trimStart_pad_left (w s : jsstring) :
  all_kind true w = true -> trimStart (w ++ s) = trimStart s.
Proof.
  induction w as [|c w IH]; [reflexivity|].
  rewrite all_kind_cons. intros H. apply andb_true_iff in H as [Hc Hw].
  apply eqb_prop in Hc. cbn [app trimStart]. rewrite Hc. now apply IH.
Qed.

Lemma trimStart_all (w : jsstring) :
  all_kind true w = true -> trimStart w = [].
Proof.
  intros H. rewrite <- (app_nil_r w). now rewrite trimStart_pad_left.
Qed.

Lemma trimStart_pad_right (s w : jsstring) :
  all_kind true w = true ->
  trimStart (s ++ w) = if all_kind true s then [] else trimStart s ++ w.
Proof.
  intros H. induction s as [|c s IH].
  - cbn. now apply trimStart_all.
  - rewrite all_kind_cons. cbn [app trimStart].
    destruct (isWhiteSpace c); [exact IH | reflexivity].
Qed.

Lemma all_kind_rev (ws : bool) (w : jsstring) :
  all_kind ws w = true -> all_kind ws (rev w) = true.
Proof.
  unfold all_kind. rewrite !forallb_forall. intros H c Hc.
  apply H. now apply in_rev.
Qed.

(** White space around a string does not show once it is trimmed. *)
Lemma trim_pad (w1 s w2 : jsstring) :
  all_kind true w1 = true -> all_kind true w2 = true ->
  trim (w1 ++ s ++ w2) = trim s.
Proof.
  intros H1 H2. unfold trim.
  rewrite (trimStart_pad_left w1 _ H1), (trimStart_pad_right s w2 H2).
  destruct (all_kind true s) eqn:E.
  - now rewrite (trimStart_all s E).
  - unfold trimEnd. rewrite rev_app_distr.
    now rewrite (trimStart_pad_left (rev w2) _ (all_kind_rev _ _ H2)).
Qed.

(** X10: the page written into the URL is the page read back.  For
    every page, [pageFromHash] gives the page from the fragment that
    [onNavigate] writes, whatever white space is around the name, and
    also from the fragment without the slash and from the bare name. *)
Theorem pageFromHash_hash_of (p : Page) (w1 w2 : jsstring) :
  all_kind true w1 = true ->
  all_kind true w2 = true ->
  pageFromHash (hash_of p) = Some (page_name p)
  /\ pageFromHash (str "#/" ++ w1 ++ page_name p ++ w2) = Some (page_name p)
  /\ pageFromHash (str "#" ++ page_name p ++ w2) = Some (page_name p)
  /\ pageFromHash (page_name p ++ w2) = Some (page_name p).
Proof.
  intros H1 H2.
  assert (T : trim (page_name p) = page_name p) by (destruct p; reflexivity).
  assert (A : existsb (jsstring_eqb (page_name p)) allowed = true)
    by (destruct p; reflexivity).
  split; [destruct p; reflexivity|].
  unfold pageFromHash. split; [|split].
  - change (strip_hash (str "#/" ++ w1 ++ page_name p ++ w2))
      with (w1 ++ page_name p ++ w2).
    now rewrite (trim_pad w1 _ w2 H1 H2), T, A.
  - replace (strip_hash (str "#" ++ page_name p ++ w2))
      with ([] ++ page_name p ++ w2) by (destruct p; reflexivity).
    now rewrite (trim_pad [] _ w2 eq_refl H2), T, A.
  - replace (strip_hash (page_name p ++ w2))
      with ([] ++ page_name p ++ w2) by (destruct p; reflexivity).
    now rewrite (trim_pad [] _ w2 eq_refl H2), T, A.
Qed.

Lemma pageFromHash_hash_of_witness :
  pageFromHash (hash_of ticketing) = Some (page_name ticketing)
  /\ pageFromHash (str "#/" ++ str " " ++ page_name ticketing ++ [10])
     = Some (page_name ticketing)
  /\ pageFromHash (str "#" ++ page_name ticketing ++ [10])
     = Some (page_name ticketing)
  /\ pageFromHash (page_name ticketing ++ [10]) = Some (page_name ticketing).
Proof.
  apply (pageFromHash_hash_of ticketing (str " ") [10]); reflexivity.
Defined.

(** X11: whatever the fragment of the URL, [pageFromHash] gives
    nothing but one of the six pages. *)
Theorem pageFromHash_known (hash key : jsstring) :
  pageFromHash hash = Some key -> exists p, key = page_name p.
Proof.
  unfold pageFromHash. intros H.
  destruct (existsb _ allowed) eqn:E; [|discriminate].
  injection H as <-. apply existsb_exists in E as (k & Hk & Ek).
  apply jsstring_eqb_eq in Ek. rewrite Ek.
  cbn in Hk.
  destruct Hk as [<-|[<-|[<-|[<-|[<-|[<-|[]]]]]]];
    [exists home | exists ticketing | exists map_page | exists assistant
     | exists account | exists architecture]; reflexivity.
Qed.

Lemma pageFromHash_known_witness : exists p, str "map" = page_name p.
Proof.
  apply (pageFromHash_known (str "#/ map ") (str "map")).
  vm_compute. reflexivity.
Defined.

(** * Ticket keys *)

(** Two signed-in users never share a key of the local storage: user
    identifiers that are not empty and give the same key are the
    same. *)
Lemma ticketsKey_injective (u u' : jsstring) :
  nonempty u = true ->
  nonempty u' = true ->
  ticketsKey (Some u) = ticketsKey (Some u') ->
  u = u'.
Proof.
  unfold ticketsKey. intros -> -> H. now apply app_inv_head in H.
Qed.

Lemma jsstring_eqb_refl (a : jsstring) : jsstring_eqb a a = true.
Proof.
  unfold jsstring_eqb. now destruct (list_eq_dec Z.eq_dec a a).
Qed.

(** X12: the tickets kept in the browser are kept per user.  Saving
    the tickets of one signed-in user, whether the storage takes them
    or not, leaves what is loaded for every other signed-in user as it
    was. *)
Theorem saved_tickets_are_per_user (room : bool) (st : Storage)
  (u u' : jsstring) (tickets : list JSValue) :
  nonempty u = true ->
  nonempty u' = true ->
  u <> u' ->
  loadLocalTickets (saveLocalTickets room st (Some u) tickets) (Some u')
  = loadLocalTickets st (Some u').
Proof.
  intros Hu Hu' N. unfold saveLocalTickets.
  destruct room; [|reflexivity].
  unfold loadLocalTickets, setItem.
  destruct (jsstring_eqb (ticketsKey (Some u')) (ticketsKey (Some u))) eqn:E;
    [|reflexivity].
  apply jsstring_eqb_eq in E. symmetry in E.
  now apply ticketsKey_injective in E.
Qed.

Lemma saved_tickets_are_per_user_witness :
  loadLocalTickets
    (saveLocalTickets true (setItem (fun _ => None) (ticketsKey (Some (str "u2")))
                                (jstr "[{'id':'pi_2'}]"))
       (Some (str "u1")) [sample_ticket]) (Some (str "u2"))
  = loadLocalTickets
      (setItem (fun _ => None) (ticketsKey (Some (str "u2"))) (jstr "[{'id':'pi_2'}]"))
      (Some (str "u2")).
Proof.
  apply (saved_tickets_are_per_user true _ (str "u1") (str "u2") [sample_ticket]);
    [reflexivity | reflexivity | discriminate].
Defined.

(** X19: what is saved is what is loaded.  When the storage takes the
    tickets, and they are values that [JSON.parse] gives back from
    their serialization, loading for the same user gives the tickets
    that were saved, whatever was stored before; when the storage does
    not take them, loading gives what it gave before. *)
Theorem saved_tickets_are_loaded (st : Storage) (userId : option jsstring)
  (tickets : list JSValue) :
  JSON.parse (JSON_stringify (JArray tickets)) = Some (JArray tickets) ->
  loadLocalTickets (saveLocalTickets true st userId tickets) userId = tickets
  /\ loadLocalTickets (saveLocalTickets false st userId tickets) userId
     = loadLocalTickets st userId.
Proof.
  intros H. split; [|reflexivity].
  unfold saveLocalTickets, loadLocalTickets, setItem.
  rewrite jsstring_eqb_refl.
  destruct (JSON_stringify (JArray tickets)) as [|c raw] eqn:E.
  - discriminate H.
  - cbn [nonempty negb]. now rewrite H.
Qed.

Lemma saved_tickets_are_loaded_witness :
  loadLocalTickets
    (saveLocalTickets true (fun _ => None) (Some (str "u1")) [sample_ticket])
    (Some (str "u1")) = [sample_ticket]
  /\ loadLocalTickets
       (saveLocalTickets false (fun _ => None) (Some (str "u1")) [sample_ticket])
       (Some (str "u1"))
     = loadLocalTickets (fun _ => None) (Some (str "u1")).
Proof.
  apply (saved_tickets_are_loaded (fun _ => None) (Some (str "u1")) [sample_ticket]).
  vm_compute. reflexivity.
Defined.

(** * The FAQ *)
Section FaqFacts.

Variable toLowerCase : jsstring -> jsstring.

Local Abbreviation key_match := (key_match toLowerCase).
Local Abbreviation findFaqResponse := (findFaqResponse toLowerCase).

Lemma faq_get_In (key : jsstring) (faq : Faq) (v : jsstring) :
  faq_get key faq = Some v -> exists k, In (k, v) faq.
Proof.
  induction faq as [|[k w] faq IH]; [discriminate|]. cbn [faq_get].
  destruct (jsstring_eqb k key).
  - intros [= <-]. exists k. now left.
  - intros H. destruct (IH H) as [k' Hk]. exists k'. now right.
Qed.

Lemma or_else_range (key : jsstring) (faq : Faq) (d : jsstring) :
  or_else (faq_get key faq) d = d
  \/ exists k, In (k, or_else (faq_get key faq) d) faq.
Proof.
  destruct (faq_get key faq) as [v|] eqn:E; [|now left]. cbn [or_else].
  destruct (nonempty v); [|now left]. right. now apply (faq_get_In key).
Qed.

Lemma key_match_In (lower : jsstring) (faq : Faq) (r : jsstring) :
  key_match lower faq = Some r -> exists k, In (k, r) faq.
Proof.
  induction faq as [|[k w] faq IH]; [discriminate|]. simpl.
  destruct (jsstring_eqb k (str "default")).
  - intros H. destruct (IH H) as [k' Hk]. exists k'. now right.
  - destruct (includes lower (toLowerCase k)).
    + intros [= <-]. exists k. now left.
    + intros H. destruct (IH H) as [k' Hk]. exists k'. now right.
Qed.

Lemma defaultMessage_range (faq : Faq) :
  defaultMessage faq = greeting \/ exists k, In (k, defaultMessage faq) faq.
Proof. apply or_else_range. Qed.

(** X13: in FAQ mode the assistant says nothing of its own: its answer
    is a text of the table or the built-in greeting, whatever the
    message. *)
Theorem findFaqResponse_range (faq : Faq) (userMessage : jsstring) :
  findFaqResponse faq userMessage = greeting
  \/ exists k, In (k, findFaqResponse faq userMessage) faq.
Proof.
  unfold findFaqResponse.
  destruct (key_match (toLowerCase userMessage) faq) as [r|] eqn:E.
  - right. now apply (key_match_In (toLowerCase userMessage)).
  - repeat match goal with
           | |- context [if ?b then _ else _] => destruct b
           end;
      try apply defaultMessage_range;
      match goal with
      | |- context [or_else (faq_get ?key faq) _] =>
          destruct (or_else_range key faq (defaultMessage faq)) as [->|H];
            [apply defaultMessage_range | now right]
      end.
Qed.

(** The loop stops at the first key, other than [default], that the
    message includes. *)
Lemma key_match_first (lower : jsstring) (before following : Faq)
  (key response : jsstring) :
  (forall k r, In (k, r) before ->
               jsstring_eqb k (str "default") = true
               \/ includes lower (toLowerCase k) = false) ->
  jsstring_eqb key (str "default") = false ->
  includes lower (toLowerCase key) = true ->
  key_match lower (before ++ (key, response) :: following) = Some response.
Proof.
  intros Hb Hk Hi. induction before as [|[k r] before IH]; simpl.
  - now rewrite Hk, Hi.
  - destruct (Hb k r (or_introl eq_refl)) as [->| ->].
    + apply IH. intros k' r' H. apply (Hb k' r'). now right.
    + destruct (jsstring_eqb k (str "default"));
        apply IH; intros k' r' H; apply (Hb k' r'); now right.
Qed.

(** X14: the first key of the table that the message includes, in
    lower case and the key [default] apart, decides the answer: the
    entries after it and the topics of the patterns are not looked
    at. *)
Theorem findFaqResponse_first_key (before following : Faq)
  (key response userMessage : jsstring) :
  (forall k r, In (k, r) before ->
               jsstring_eqb k (str "default") = true
               \/ includes (toLowerCase userMessage) (toLowerCase k) = false) ->
  jsstring_eqb key (str "default") = false ->
  includes (toLowerCase userMessage) (toLowerCase key) = true ->
  findFaqResponse (before ++ (key, response) :: following) userMessage = response.
Proof.
  intros Hb Hk Hi. unfold findFaqResponse.
  now rewrite (key_match_first _ before following key response Hb Hk Hi).
Qed.

Lemma key_match_none (lower : jsstring) (faq : Faq) :
  (forall k r, In (k, r) faq ->
               jsstring_eqb k (str "default") = true
               \/ includes lower (toLowerCase k) = false) ->
  key_match lower faq = None.
Proof.
  induction faq as [|[k r] faq IH]; intros H; [reflexivity|]. simpl.
  destruct (H k r (or_introl eq_refl)) as [->| ->].
  - apply IH. intros k' r' Hin. apply (H k' r'). now right.
  - destruct (jsstring_eqb k (str "default"));
      apply IH; intros k' r' Hin; apply (H k' r'); now right.
Qed.

End FaqFacts.

(** A word written in any mix of capitals and small letters is found
    by a pattern under the flag [i]. *)
Lemma starts_with_i_lower (w following word : jsstring) :
  ascii_lower w = word ->
  forallb (fun c => (97 <=? c) && (c <=? 122)) word = true ->
  starts_with_i (w ++ following) word = true.
Proof.
  revert word. induction w as [|c w IH]; intros word Hw Hl.
  - subst word. destruct following; reflexivity.
  - cbn [ascii_lower map] in Hw. subst word. cbn [forallb] in Hl.
    apply andb_prop in Hl as [Hc Hl]. cbn [app starts_with_i].
    fold (ascii_lower w) in *. rewrite (IH _ eq_refl Hl), andb_true_r.
    unfold matches_i. destruct ((65 <=? c) && (c <=? 90)) eqn:E.
    + apply orb_true_iff. right. apply Z.eqb_eq. lia.
    + apply orb_true_iff. left. apply Z.eqb_eq. reflexivity.
Qed.

Lemma includes_i_app (before s word : jsstring) :
  starts_with_i s word = true -> includes_i (before ++ s) word = true.
Proof.
  intros H. induction before as [|c before IH]; cbn [app].
  - destruct s; cbn [includes_i]; now rewrite H.
  - cbn [includes_i]. rewrite IH. apply orb_true_r.
Qed.

(** X15: a message that names no key of the table but holds the word
    [hotel], in small letters or capitals, gets the answer filed under
    [hotels], or the default message when there is none. *)
Theorem findFaqResponse_hotel (toLowerCase : jsstring -> jsstring) (faq : Faq)
  (before w following : jsstring) :
  (forall k r, In (k, r) faq ->
               jsstring_eqb k (str "default") = true
               \/ includes (toLowerCase (before ++ w ++ following)) (toLowerCase k)
                  = false) ->
  ascii_lower w = str "hotel" ->
  findFaqResponse toLowerCase faq (before ++ w ++ following)
  = or_else (faq_get (str "hotels") faq) (defaultMessage faq).
Proof.
  intros Hk Hw. unfold findFaqResponse.
  rewrite (key_match_none toLowerCase _ faq Hk).
  assert (test_i hotel_words (before ++ w ++ following) = true) as ->; [|reflexivity].
  unfold test_i, hotel_words. cbn [existsb].
  rewrite (includes_i_app before (w ++ following) (str "hotel")).
  - now rewrite orb_true_r.
  - now apply starts_with_i_lower.
Qed.

Lemma findFaqResponse_first_key_witness :
  findFaqResponse ascii_lower faq_sample (str "Default: horaires et Parking ?")
  = str "P1 et P2".
Proof.
  apply (findFaqResponse_first_key ascii_lower
           [(str "default", str "Bonjour")]
           [(str "horaires", str "18h et 21h"); (str "hotels", str "Voir la liste")]
           (str "parking") (str "P1 et P2") (str "Default: horaires et Parking ?")).
  - intros k r [H|[]]. injection H as <- _. left. reflexivity.
  - reflexivity.
  - vm_compute. reflexivity.
Defined.

Lemma findFaqResponse_hotel_witness :
  findFaqResponse ascii_lower faq_sample (str "Un HOTEL pas cher ?")
  = or_else (faq_get (str "hotels") faq_sample) (defaultMessage faq_sample).
Proof.
  apply (findFaqResponse_hotel ascii_lower faq_sample (str "Un ") (str "HOTEL")
           (str " pas cher ?")).
  - intros k r H. cbn in H.
    destruct H as [H|[H|[H|[H|[]]]]]; injection H as <- _;
      [left | right | right | right]; vm_compute; reflexivity.
  - vm_compute. reflexivity.
Defined.

(** * Examples for the readers *)

Lemma plain_chunk_boundary_independence_witness :
  tokens (ollamaChatStream JSON.parse (streaming [cafe_whole] EndOfStream) initial)
  = tokens (ollamaChatStream JSON.parse (streaming cafe_cut EndOfStream) initial)
  /\ thrown (ollamaChatStream JSON.parse (streaming [cafe_whole] EndOfStream) initial)
     = thrown (ollamaChatStream JSON.parse (streaming cafe_cut EndOfStream) initial).
Proof.
  apply (plain_chunk_boundary_independence JSON.parse [cafe_whole] cafe_cut
           EndOfStream).
  vm_compute. reflexivity.
Defined.

Lemma completion_ends_plain_reader_witness :
  tokens (ollamaChatStream JSON.parse
            (streaming ([ndjson [hello_done]] ++ [ndjson [more]]) EndOfStream)
            initial)
  = tokens (ollamaChatStream JSON.parse (streaming [ndjson [hello_done]] Aborted)
              initial)
  /\ thrown (ollamaChatStream JSON.parse
               (streaming ([ndjson [hello_done]] ++ [ndjson [more]]) EndOfStream)
               initial) = None
  /\ thrown (ollamaChatStream JSON.parse (streaming [ndjson [hello_done]] Aborted)
               initial) = None.
Proof.
  apply (completion_ends_plain_reader JSON.parse [ndjson [hello_done]]
           [ndjson [more]] Aborted EndOfStream).
  vm_compute. reflexivity.
Defined.

Lemma plain_reader_tokens_witness :
  tokens (ollamaChatStream JSON.parse
            (streaming [ndjson [bon]; ndjson [jour_done]] EndOfStream) initial)
  = filter nonempty (map fragment [mkRecord (jstr bon) (str "Bon") false;
                                   mkRecord (jstr jour_done) (str "jour !") true])
  /\ thrown (ollamaChatStream JSON.parse
               (streaming [ndjson [bon]; ndjson [jour_done]] EndOfStream) initial)
     = None.
Proof.
  apply (plain_reader_tokens JSON.parse [ndjson [bon]; ndjson [jour_done]]
           [mkRecord (jstr bon) (str "Bon") false;
            mkRecord (jstr jour_done) (str "jour !") true]);
    vm_compute; reflexivity.
Defined.

Lemma readers_agree_witness :
  concat (tokens (ollamaChatStreamWordByWord JSON.parse
                    (streaming [ndjson [bon]; ndjson [jour_done]] Aborted) initial))
  = concat (tokens (ollamaChatStream JSON.parse
                      (streaming [ndjson [bon]; ndjson [jour_done]] Aborted) initial)).
Proof.
  apply (readers_agree JSON.parse [ndjson [bon]; ndjson [jour_done]]
           [mkRecord (jstr bon) (str "Bon") false;
            mkRecord (jstr jour_done) (str "jour !") true] Aborted).
  - vm_compute. reflexivity.
  - vm_compute. reflexivity.
  - vm_compute. reflexivity.
  - left. exists [mkRecord (jstr bon) (str "Bon") false],
                 (mkRecord (jstr jour_done) (str "jour !") true).
    split; reflexivity.
Defined.

Lemma conversion_failure_ends_the_call_witness :
  ollamaChatStreamWordByWord JSON.parse
    (streaming [ndjson [bon; unprintable; more]] EndOfStream) initial
  = ([], Throw TypeError).
Proof.
  apply (conversion_failure_ends_the_call JSON.parse [ndjson [bon]]
           [ndjson [bon; unprintable; more]] (jstr unprintable)
           (jstr more ++ [LF])
           (JObject [(str "message",
                      JObject [(str "content",
                                JObject [(str "toString",
                                          JNumber (Number.of_decimal false 1 0))])]);
                     (str "done", JBool true)])
           TypeError EndOfStream [] (mkLocals [] (str "Bon") idle));
    vm_compute; reflexivity.
Defined.

(** * The backend helper [asIntCents] *)

(** The number of a whole amount below [2^53] is exact. *)
Lemma of_ratio_whole (n : Z) :
  0 < n < 2 ^ 53 ->
  Number.of_ratio false n 1
  = Number.Finite false (n * 2 ^ (52 - Z.log2 n)) (Z.log2 n - 52).
Proof.
  intros [Hpos Hlt]. unfold Number.of_ratio.
  destruct (Z.eqb_spec n 0) as [E|_]; [lia|].
  pose proof (Z.log2_spec n Hpos) as [Hlo Hhi].
  pose proof (Z.log2_nonneg n) as Hl0.
  assert (Z.log2 n <= 52) as Hl52.
  { destruct (Z_le_gt_dec (Z.log2 n) 52) as [H|H]; [exact H|].
    assert (2 ^ 53 <= 2 ^ Z.log2 n) by (apply Z.pow_le_mono_r; lia). lia. }
  change (Z.log2 1) with 0. rewrite Z.sub_0_r.
  unfold Number.pow_le. destruct (Z.leb_spec 0 (Z.log2 n)) as [_|H]; [|lia].
  rewrite Z.mul_1_l. destruct (Z.leb_spec (2 ^ Z.log2 n) n) as [_|H]; [|lia].
  rewrite (Z.max_l (Z.log2 n - 52) (-1074)) by lia.
  set (k := 52 - Z.log2 n).
  assert (0 <= k) as Hk by (subst k; lia).
  assert (n * 2 ^ k < 2 ^ 53) as Hm.
  { replace (2 ^ 53) with (2 ^ Z.succ (Z.log2 n) * 2 ^ k).
    - apply Z.mul_lt_mono_pos_r; [apply Z.pow_pos_nonneg; lia | exact Hhi].
    - rewrite <- Z.pow_add_r by lia. f_equal. subst k. lia. }
  assert (0 < n * 2 ^ k) as Hm0
    by (apply Z.mul_pos_pos; [lia | apply Z.pow_pos_nonneg; lia]).
  assert (forall p, Number.round_half_even p 1 = p) as R1.
  { intros p. unfold Number.round_half_even. rewrite Z.div_1_r, Z.mod_1_r. reflexivity. }
  destruct (Z.leb_spec 0 (Z.log2 n - 52)) as [He|He].
  - assert (Z.log2 n = 52) as L by lia. subst k. rewrite L in *.
    change (52 - 52) with 0 in *. change (2 ^ 0) with 1 in *.
    rewrite Z.mul_1_r in *. rewrite R1.
    destruct (Z.eqb_spec n (2 ^ 53)) as [E|_]; [lia|].
    destruct (Z.eqb_spec n 0) as [E|_]; [lia|].
    destruct (Z.ltb_spec 971 0) as [H|_]; [lia|]. f_equal. lia.
  - replace (- (Z.log2 n - 52)) with k by (subst k; lia). rewrite R1.
    destruct (Z.eqb_spec (n * 2 ^ k) (2 ^ 53)) as [E|_]; [lia|].
    destruct (Z.eqb_spec (n * 2 ^ k) 0) as [E|_]; [lia|].
    destruct (Z.ltb_spec 971 (Z.log2 n - 52)) as [H|_]; [lia | reflexivity].
Qed.

Lemma Math_round_whole (n : Z) :
  0 < n < 2 ^ 53 ->
  Math_round (Number.Finite false (n * 2 ^ (52 - Z.log2 n)) (Z.log2 n - 52)) = n.
Proof.
  intros [Hpos Hlt]. unfold Math_round.
  pose proof (Z.log2_spec n Hpos) as [Hlo Hhi].
  pose proof (Z.log2_nonneg n) as Hl0.
  assert (Z.log2 n <= 52) as Hl52.
  { destruct (Z_le_gt_dec (Z.log2 n) 52) as [H|H]; [exact H|].
    assert (2 ^ 53 <= 2 ^ Z.log2 n) by (apply Z.pow_le_mono_r; lia). lia. }
  destruct (Z.leb_spec 0 (Z.log2 n - 52)) as [He|He].
  - assert (Z.log2 n = 52) as L by lia. rewrite L.
    change (52 - 52) with 0. change (2 ^ 0) with 1. lia.
  - set (k := 52 - Z.log2 n).
    replace (- (Z.log2 n - 52)) with k by (subst k; lia).
    replace (1 - (Z.log2 n - 52)) with (Z.succ k) by (subst k; lia).
    assert (0 <= k) as Hk by (subst k; lia).
    rewrite Z.pow_succ_r by exact Hk.
    assert (0 < 2 ^ k) as Hp by (apply Z.pow_pos_nonneg; lia).
    symmetry. apply (Z.div_unique _ _ n (2 ^ k)); lia.
Qed.

(** X16: a whole, positive amount below [2^53], written in the body as
    an integer, is accepted unchanged. *)
Theorem asIntCents_whole (n : Z) :
  0 < n < 2 ^ 53 ->
  asIntCents (Some (JNumber (Number.of_decimal false n 0))) = inl (Some n).
Proof.
  intros H. unfold Number.of_decimal. cbn [Z.leb Z.compare]. change (10 ^ 0) with 1.
  rewrite Z.mul_1_r, (of_ratio_whole n H).
  unfold asIntCents. cbn [ToNumber isFinite negb]. rewrite (Math_round_whole n H).
  destruct (Z.leb_spec n 0) as [Hn|_]; [lia | reflexivity].
Qed.

(** X17: an accepted amount is the nearest whole number.  When
    [asIntCents] accepts a number, the number is finite, the result is
    at least one, and the number lies within half a unit of it: from
    [i - 1/2] to, but not including, [i + 1/2]. *)
Theorem asIntCents_nearest (x : Number.t) (i : Z) :
  asIntCents (Some (JNumber x)) = inl (Some i) ->
  1 <= i
  /\ exists neg m e,
       x = Number.Finite neg m e
       /\ let n := if neg then - m else m in
          if 0 <=? e then i = n * 2 ^ e
          else (2 * i - 1) * 2 ^ (- e) <= 2 * n < (2 * i + 1) * 2 ^ (- e).
Proof.
  unfold asIntCents. cbn [ToNumber].
  destruct x as [neg|neg m e|neg]; cbn [isFinite negb Math_round]; try discriminate.
  set (n := if neg then - m else m).
  destruct (Z.leb_spec 0 e) as [He|He].
  - destruct (Z.leb_spec (n * 2 ^ e) 0) as [H|H]; [discriminate|].
    intros [= <-]. split; [lia|]. exists neg, m, e. split; [reflexivity|].
    cbv zeta. fold n. destruct (Z.leb_spec 0 e); [reflexivity | lia].
  - set (k := - e). assert (0 < k) as Hk by (subst k; lia).
    replace (1 - e) with (Z.succ k) by (subst k; lia).
    assert (0 < 2 ^ k) as Hp by (apply Z.pow_pos_nonneg; lia).
    rewrite Z.pow_succ_r by lia.
    pose proof (Z.div_mod (2 * n + 2 ^ k) (2 * 2 ^ k) ltac:(lia)) as D.
    pose proof (Z.mod_pos_bound (2 * n + 2 ^ k) (2 * 2 ^ k) ltac:(lia)) as B.
    set (q := (2 * n + 2 ^ k) / (2 * 2 ^ k)) in *.
    set (r := (2 * n + 2 ^ k) mod (2 * 2 ^ k)) in *.
    destruct (Z.leb_spec q 0) as [H|H]; [discriminate|].
    intros [= <-]. split; [lia|]. exists neg, m, e. split; [reflexivity|].
    cbv zeta. fold n. destruct (Z.leb_spec 0 e); [lia|]. fold k.
    split; nia.
Qed.

Lemma asIntCents_whole_witness :
  asIntCents (Some (JNumber (Number.of_decimal false 1500 0))) = inl (Some 1500).
Proof.
  apply (asIntCents_whole 1500). lia.
Defined.

Lemma asIntCents_nearest_witness :
  1 <= 100
  /\ exists neg m e,
       Number.of_decimal false 995 (-1) = Number.Finite neg m e
       /\ let n := if neg then - m else m in
          if 0 <=? e then 100 = n * 2 ^ e
          else (2 * 100 - 1) * 2 ^ (- e) <= 2 * n < (2 * 100 + 1) * 2 ^ (- e).
Proof.
  apply (asIntCents_nearest (Number.of_decimal false 995 (-1)) 100).
  vm_compute. reflexivity.
Defined.
